(** * COLIBRI segment reservations: index algebra and keeper

    A shallow embedding of the segment-reservation entity
    (package [segment], file reservation.go) and of the reservation keeper
    (package [reservationstore], file keeper.go), followed by the properties
    of the specification that concern them.

    Conventions.
    - Go's [int] is embedded as [Z]; slice positions produced by a lookup
      are [nat] and are injected with [Z.of_nat] where the code compares
      them with [activeIndex].
    - [time.Time] is an instant in nanoseconds ([Z]); [time.Duration] is a
      signed 64-bit count of nanoseconds.
    - A method with a pointer receiver becomes a function from the
      reservation before the call to an [outcome]: either the returned
      values together with the reservation after the call, or a run-time
      panic (index out of range, nil dereference, explicit [panic]).
    - Slices are lists; re-slicing [s[i:]] is [drop i s]. *)

From Stdlib Require Import ZArith Lia Bool.
From Stdlib Require Strings.String.
From stdpp Require Import base tactics option list.

Local Open Scope Z_scope.

(** ** Run-time outcomes *)

Inductive outcome (A : Type) : Type :=
| Value (a : A)
| Panic.
Arguments Value {A} a.
Arguments Panic {A}.

(** Sequencing, written [x ← m; k] below: a panic aborts what follows. *)
#[global] Instance outcome_bind : MBind outcome := fun A B k m =>
  match m with
  | Value a => k a
  | Panic => Panic
  end.

(** Errors built by [serrors.New] in the embedded code, named after their
    message, and the errors handed back by collaborators. *)
Inductive error : Type :=
| ErrIndexNotFound            (* "index not found in this reservation" *)
| ErrInvalidIndices (code : Z) (* an error of base.ValidateIndices *)
| ErrAlreadyActive            (* "cannot confirm an already active index" *)
| ErrNotConfirmed             (* "attempt to activate a non confirmed index" *)
| ErrPastIndex                (* "activating a past index" *)
| ErrNoMorePaths              (* "no more best effort paths to create reservation" *)
| ErrCollaborator (code : Z). (* an error of the manager (router, RPC, storage) *)

(** The error kinds of the specification (section 7). *)
Inductive ErrorKind : Type :=
| ValidationError | NotFoundError | StateError | TransportError | NoPathError.

Definition kind (e : error) : ErrorKind :=
  match e with
  | ErrIndexNotFound => NotFoundError
  | ErrInvalidIndices _ => ValidationError
  | ErrAlreadyActive | ErrNotConfirmed | ErrPastIndex => StateError
  | ErrNoMorePaths => NoPathError
  | ErrCollaborator _ => TransportError
  end.

(** ** Package [reservation] (lib/colibri/reservation): primitive types *)

Module reservation.

(** [IndexNumber] is a [uint8] holding a value of the 4-bit ring. *)
Definition IndexNumber : Type := Z.

(** Modelled from the spec: the methods [IndexNumber.Add] and
    [IndexNumber.Sub] are not among the sources. The spec's data model
    gives "integer in [0,15], with modular successor/predecessor
    operations (Add(1), Sub(1)) on a 4-bit ring". *)
Definition Add (i other : IndexNumber) : IndexNumber := (i + other) mod 16.
Definition Sub (i other : IndexNumber) : IndexNumber := (i - other) mod 16.

Definition BWCls : Type := Z.
Definition SplitCls : Type := Z.
Definition RLC : Type := Z.
Definition PathEndProps : Type := Z.
Definition Tick : Type := Z.

(** [UnknownPath] is the zero value of the type. *)
Inductive PathType : Type := UnknownPath | UpPath | CorePath | DownPath.

Definition PathType_eqb (a b : PathType) : bool :=
  match a, b with
  | UnknownPath, UnknownPath
  | UpPath, UpPath | CorePath, CorePath | DownPath, DownPath => true
  | _, _ => false
  end.

(** Length of the suffix of a segment reservation ID (the spec's
    constants: "design: 4 bytes"). *)
Definition IDSuffixSegLen : nat := 4.

Record ID : Type := mkID { ASID : Z; Suffix : list Byte.byte }.

(** Modelled from the spec: [TickFromTime] is not among the sources. The
    spec's data model gives "ExpirationTick = uint32, 1 tick = 4 seconds
    from a fixed epoch"; instants are nanoseconds here. *)
Definition TickFromTime (t : Z) : Tick := (t / 4000000000) mod 2 ^ 32.

Record InfoField : Type := mkInfoField {
  if_Idx : IndexNumber;
  if_ExpirationTick : Tick;
  if_BWCls : BWCls;
  if_RLC : RLC;
  if_PathType : PathType }.

Record HopField : Type := mkHopField {
  hf_Ingress : Z; hf_Egress : Z; hf_Mac : list Byte.byte }.

Record Token : Type := mkToken {
  tok_InfoField : InfoField;
  tok_HopFields : list HopField }.

End reservation.

Definition Time : Type := Z.
Definition Duration : Type := Z.

(** ** Package [segment]: indices and reservations *)

Module segment.
Import reservation.

Inductive IndexState : Type := IndexTemporary | IndexPending | IndexActive.

Definition IndexState_eqb (a b : IndexState) : bool :=
  match a, b with
  | IndexTemporary, IndexTemporary
  | IndexPending, IndexPending
  | IndexActive, IndexActive => true
  | _, _ => false
  end.

Record Index : Type := mkIndex {
  Idx : IndexNumber;
  Expiration : Time;
  State : IndexState;
  MinBW : BWCls;
  MaxBW : BWCls;
  AllocBW : BWCls;
  Token : option reservation.Token }.

Definition NewIndex (idx : IndexNumber) (expiration : Time) (state : IndexState)
    (minBW maxBW allocBW : BWCls) (token : option reservation.Token) : Index :=
  mkIndex idx expiration state minBW maxBW allocBW token.

Abbreviation Indices := (list Index).

(** The assignment [ix.State = s]. *)
Definition setState (s : IndexState) (ix : Index) : Index :=
  mkIndex (Idx ix) (Expiration ix) s (MinBW ix) (MaxBW ix) (AllocBW ix) (Token ix).

Record PathStep : Type := mkStep { Ingress : Z; Egress : Z; IA : Z }.
Abbreviation PathSteps := (list PathStep).

(** The raw data-plane path kept at the initiator AS. *)
Definition TransportPath : Type := option (list Byte.byte).

Record Reservation : Type := mkReservation {
  ID : reservation.ID;
  Indices_ : Indices;
  activeIndex : Z;
  PathType_ : PathType;
  PathEndProps_ : PathEndProps;
  TrafficSplit : SplitCls;
  Steps : PathSteps;
  CurrentStep : Z;
  TransportPath_ : TransportPath }.

(** The assignments [r.Indices = l] and [r.activeIndex = a]. *)
Definition withIndices (l : Indices) (r : Reservation) : Reservation :=
  mkReservation (ID r) l (activeIndex r) (PathType_ r) (PathEndProps_ r)
    (TrafficSplit r) (Steps r) (CurrentStep r) (TransportPath_ r).

Definition withActiveIndex (a : Z) (r : Reservation) : Reservation :=
  mkReservation (ID r) (Indices_ r) a (PathType_ r) (PathEndProps_ r)
    (TrafficSplit r) (Steps r) (CurrentStep r) (TransportPath_ r).

Definition NewReservation (asid : Z) : Reservation :=
  mkReservation (mkID asid (replicate IDSuffixSegLen Byte.x00)) [] (-1)
    UnknownPath 0 0 [] 0 None.

(** The two functions of package [base] (go/co/reservation) that the
    reservation calls. Their bodies are not among the sources: the
    reservation is verified against every implementation, and
    [spec_base] below is the one the specification describes. *)
Class Base : Type := {
  FindIndex : Indices -> IndexNumber -> nat + error;
  ValidateIndices : Indices -> option error }.


Section Reservation.
Context `{Base}.

(** [ActiveIndex]: the currently active index, or nil if none. The
    element access panics outside the slice. *)
Definition ActiveIndex (r : Reservation) : outcome (option Index) :=
  if activeIndex r =? -1 then Value None
  else if activeIndex r <? 0 then Panic
  else match Indices_ r !! Z.to_nat (activeIndex r) with
       | Some ix => Value (Some ix)
       | None => Panic
       end.

Definition addIndex (index : Index) (r : Reservation)
    : outcome ((IndexNumber * option error) * Reservation) :=
  let newIndices := Indices_ r ++ [index] in
  match ValidateIndices newIndices with
  | Some err => Value ((0, Some err), r)
  | None => Value ((Idx index, None), withIndices newIndices r)
  end.

(** [Reservation.NewIndex]: creates a new (temporary) index whose token
    is built from the arguments. *)
Definition Reservation_NewIndex (idx : IndexNumber) (expTime : Time)
    (minBW maxBW allocBW : BWCls) (rlc : RLC) (pathType : PathType)
    (r : Reservation) : outcome ((IndexNumber * option error) * Reservation) :=
  let tok := mkToken (mkInfoField idx (TickFromTime expTime) allocBW rlc pathType) [] in
  let index := NewIndex idx expTime IndexTemporary minBW maxBW allocBW (Some tok) in
  addIndex index r.

Definition NextIndexToRenew (r : Reservation) : IndexNumber :=
  let last :=
    match last (Indices_ r) with
    | Some ix => Idx ix
    | None => Sub 0 1
    end in
  Add last 1.

Definition NextIndexToActivate (r : Reservation) : option Index :=
  let len := Z.of_nat (length (Indices_ r)) in
  if len =? 0 then None
  else if activeIndex r <? 0 then Indices_ r !! Z.to_nat (len - 1)
  else if activeIndex r + 1 <? len then Indices_ r !! Z.to_nat (activeIndex r + 1)
  else None.

(** [SetIndexConfirmed]: sets the index as pending (confirmed but not
    active); an active index is refused. *)
Definition SetIndexConfirmed (idx : IndexNumber) (r : Reservation)
    : outcome (option error * Reservation) :=
  match FindIndex (Indices_ r) idx with
  | inr err => Value (Some err, r)
  | inl sliceIndex =>
      match Indices_ r !! sliceIndex with
      | None => Panic
      | Some ix =>
          if IndexState_eqb (State ix) IndexActive
          then Value (Some ErrAlreadyActive, r)
          else Value (None,
                 withIndices (alter (setState IndexPending) sliceIndex (Indices_ r)) r)
      end
  end.

(** [SetIndexActive]: sets the index as active and removes the indices
    before it. *)
Definition SetIndexActive (idx : IndexNumber) (r : Reservation)
    : outcome (option error * Reservation) :=
  match FindIndex (Indices_ r) idx with
  | inr err => Value (Some err, r)
  | inl sliceIndex =>
      if activeIndex r =? Z.of_nat sliceIndex then Value (None, r) (* already active *)
      else
        match Indices_ r !! sliceIndex with
        | None => Panic
        | Some ix =>
            if negb (IndexState_eqb (State ix) IndexPending)
               && negb (IndexState_eqb (State ix) IndexActive)
            then Value (Some ErrNotConfirmed, r)
            else if (activeIndex r >? -1) && (activeIndex r >? Z.of_nat sliceIndex)
            then
              (* the message reads r.Indices[r.activeIndex].Idx *)
              match Indices_ r !! Z.to_nat (activeIndex r) with
              | None => Panic
              | Some _ => Value (Some ErrPastIndex, r)
              end
            else
              (* remove the indices before sliceIndex: it is now at position 0 *)
              let indices := drop sliceIndex (Indices_ r) in
              match indices !! 0%nat with
              | None => Panic
              | Some _ =>
                  Value (None,
                    withIndices (alter (setState IndexActive) 0%nat indices)
                      (withActiveIndex 0 r))
              end
        end
  end.

Definition SetIndexInactive (r : Reservation) : outcome (unit * Reservation) :=
  if activeIndex r =? 0 then
    match Indices_ r !! 0%nat with
    | None => Panic
    | Some _ =>
        Value (tt, withActiveIndex (-1)
                     (withIndices (alter (setState IndexPending) 0%nat (Indices_ r)) r))
    end
  else Value (tt, r).

(** [RemoveIndex]: removes all indices from the beginning until this
    one, inclusive. Re-slicing past the length panics. *)
Definition RemoveIndex (idx : IndexNumber) (r : Reservation)
    : outcome (option error * Reservation) :=
  match FindIndex (Indices_ r) idx with
  | inr err => Value (Some err, r)
  | inl sliceIndex =>
      if (length (Indices_ r) <? S sliceIndex)%nat then Panic
      else
        let r1 := withIndices (drop (S sliceIndex) (Indices_ r)) r in
        if activeIndex r1 >? Z.of_nat sliceIndex
        then Value (None, withActiveIndex (activeIndex r1 - (Z.of_nat sliceIndex + 1)) r1)
        else Value (None, withActiveIndex (-1) r1)
  end.

End Reservation.

(** Modelled from the spec: the bodies of [base.FindIndex] and
    [base.ValidateIndices] are not among the sources.
    [FindIndex]: the lookup "by IndexNumber", failing with the
    NotFoundError "against a reservation that does not contain it": the
    slice position of the first index carrying that number.
    [ValidateIndices]: the reservation invariant "Indices are ordered by
    ascending IndexNumber modulo 16 with monotonically non-decreasing"
    expiration, together with the checks listed for [NewIndex]:
    "allocBW in [minBW, maxBW]" and "index count <= MaxIndices (design
    constant: 16)". *)
Fixpoint findFrom (pos : nat) (l : Indices) (idx : IndexNumber) : nat + error :=
  match l with
  | [] => inr ErrIndexNotFound
  | ix :: rest => if Idx ix =? idx then inl pos else findFrom (S pos) rest idx
  end.

Fixpoint consecutive (l : Indices) : bool :=
  match l with
  | a :: ((b :: _) as rest) =>
      (Idx b =? Add (Idx a) 1) && (Expiration a <=? Expiration b) && consecutive rest
  | _ => true
  end.

Definition bwInRange (ix : Index) : bool :=
  (MinBW ix <=? AllocBW ix) && (AllocBW ix <=? MaxBW ix).

Definition validate (l : Indices) : option error :=
  if negb (consecutive l) then Some (ErrInvalidIndices 1)
  else if negb (forallb bwInRange l) then Some (ErrInvalidIndices 2)
  else if (16 <? length l)%nat then Some (ErrInvalidIndices 3)
  else None.

#[export] Instance spec_base : Base :=
  {| FindIndex := findFrom 0; ValidateIndices := validate |}.

End segment.

(** ** Instants and durations (package [time]) *)

Definition maxDuration : Duration := 2 ^ 63 - 1.
Definition minDurationValue : Duration := - 2 ^ 63.

Definition Second : Duration := 1000000000.
Definition Minute : Duration := 60 * Second.

Definition Time_Add (t : Time) (d : Duration) : Time := t + d.

(** [t.Sub(u)] saturates at the largest and smallest duration. *)
Definition Time_Sub (t u : Time) : Duration :=
  let d := t - u in
  if d >? maxDuration then maxDuration
  else if d <? minDurationValue then minDurationValue
  else d.

Definition Time_Before (t u : Time) : bool := t <? u.
Definition Time_After (t u : Time) : bool := t >? u.

(** The zero value [time.Time{}] (January 1, year 1), counted from the
    Unix epoch. *)
Definition zeroTime : Time := -62135596800 * Second.

(** ** Index filters of package [segment] *)

Module filters.
Import reservation segment.

Definition IndexFilter : Type := Index -> bool.

(** [idxs.Filter(filters...)] keeps the indices that pass every filter,
    in their order. *)
Definition Filter (fs : list IndexFilter) (idxs : Indices) : Indices :=
  List.filter (fun ix => forallb (fun f : IndexFilter => f ix) fs) idxs.

(** Modelled from the spec: the filter constructors are not among the
    sources. The spec's compliance section gives "MinBW >= conf.minBW",
    "MaxBW <= conf.maxBW", "State in {Pending, Active}" and an expiration
    bound by [until]; for the latter the test case "one non compliant
    index, expired" of keeper_test.go (an index expiring exactly at
    [until] needs new indices) fixes the strict comparison. "Switchable
    from A" is "suitable to replace A as the active index", "strictly
    newer" than A: with no active index every index is, otherwise every
    index but A itself. *)
Definition ByMinBW (minBW : BWCls) : IndexFilter := fun ix => MinBW ix >=? minBW.
Definition ByMaxBW (maxBW : BWCls) : IndexFilter := fun ix => MaxBW ix <=? maxBW.
Definition NotConfirmed : IndexFilter :=
  fun ix => negb (IndexState_eqb (State ix) IndexTemporary).
Definition ByExpiration (atLeastUntil : Time) : IndexFilter :=
  fun ix => Time_After (Expiration ix) atLeastUntil.
Definition NotSwitchableFrom (index : option Index) : IndexFilter :=
  fun ix =>
    match index with
    | None => false
    | Some a => Idx ix =? Idx a
    end.

End filters.

(** ** Package [reservationstore]: the keeper *)

Module reservationstore.
Import reservation segment filters.

Definition sleepAtLeast : Duration := 4 * Second.
Definition sleepAtMost : Duration := 5 * Minute.
Definition minDuration : Duration := 2 * sleepAtMost.
Definition newIndexMinDuration : Duration := 2 * minDuration.

(** Modelled from the spec: [base.Request] and [base.NewRequest] are not
    among the sources; the spec's RPC envelope gives
    "Request{Timestamp, ID, Index, StepCount}". *)
Record Request : Type := mkRequest {
  Timestamp : Time;
  req_ID : reservation.ID;
  req_Index : IndexNumber;
  StepCount : Z }.

Definition NewRequest (ts : Time) (id : reservation.ID) (idx : IndexNumber)
    (steps : Z) : Request := mkRequest ts id idx steps.

(** The AS part of an ISD-AS identifier: its low 48 bits. *)
Definition IA_AS (ia : Z) : Z := Z.land ia (2 ^ 48 - 1).

(** What the keeper uses of the path libraries ([snet], [pathpol]) and of
    the path-step helpers of package [base]: their types and pure
    functions, whose bodies are not among the sources.
    [PathFromDataplanePath p] stands for
    [base.PathFromDataplanePath(p.Dataplane())] and hands back both
    results of the call; [DstIA], [Interfaces] and [Reverse] are the
    methods of [PathSteps]. *)
Class PathLib : Type := {
  snetPath : Type;
  Sequence : Type;
  PathInterface : Type;
  EvalInterfaces : Sequence -> list PathInterface -> bool;
  Eval : Sequence -> list snetPath -> list snetPath;
  StepsFromSnet : snetPath -> PathSteps + error;
  PathFromDataplanePath : snetPath -> TransportPath * option error;
  DstIA : PathSteps -> Z;
  Interfaces : PathSteps -> list PathInterface;
  Reverse : PathSteps -> PathSteps }.

Section Keeper.
Context `{Base} `{PathLib}.

Record configuration : Type := mkConfiguration {
  dst : Z;
  pathType : PathType;
  predicate : Sequence;
  minBW : BWCls;
  maxBW : BWCls;
  splitCls : SplitCls;
  endProps : PathEndProps }.

Record entry : Type := mkEntry {
  conf : configuration;
  rsv : option Reservation }.

Record SetupReq : Type := mkSetupReq {
  sr_Request : Request;
  sr_ExpirationTime : Time;
  sr_PathType : PathType;
  sr_MinBW : BWCls;
  sr_MaxBW : BWCls;
  sr_SplitCls : SplitCls;
  sr_PathProps : PathEndProps;
  sr_Steps : PathSteps;
  sr_CurrentStep : Z;
  sr_TransportPath : TransportPath;
  sr_Reservation : option Reservation }.

(** [PrepareSetupRequest]: the steps in the direction of the traffic,
    reversed for a down-path reservation. It panics on a path that does
    not convert to steps; an error of the data-plane conversion is only
    logged. *)
Definition PrepareSetupRequest (e : entry) (now expTime : Time) (localAS : Z)
    (p : snetPath) : outcome SetupReq :=
  match StepsFromSnet p with
  | inr _ => Panic
  | inl steps =>
      let rawPath := fst (PathFromDataplanePath p) in
      let '(steps, currentStep) :=
        if PathType_eqb (pathType (conf e)) DownPath
        then (Reverse steps, Z.of_nat (length (Reverse steps)) - 1)
        else (steps, 0) in
      let id := mkID localAS (replicate IDSuffixSegLen Byte.x00) in
      Value (mkSetupReq (NewRequest now id 0 (Z.of_nat (length steps)))
               expTime (pathType (conf e)) (minBW (conf e)) (maxBW (conf e))
               (splitCls (conf e)) (endProps (conf e)) steps currentStep rawPath None)
  end.

(** *** Matching reservations with configurations *)

Definition compatible (r : Reservation) (c : configuration) : bool :=
  if negb (DstIA (Steps r) =? dst c) then false
  else if negb (PathType_eqb (PathType_ r) (pathType c)) then false
  else if negb (TrafficSplit r =? splitCls c) then false
  else if negb (PathEndProps_ r =? endProps c) then false
  else if negb (EvalInterfaces (predicate c) (Interfaces (Steps r))) then false
  else true.

(** The loop of [findCompatibleConfiguration], entered at position [i]. *)
Fixpoint findCompatibleFrom (i : Z) (r : Reservation) (conf : list configuration) : Z :=
  match conf with
  | [] => -1
  | c :: rest => if compatible r c then i else findCompatibleFrom (i + 1) r rest
  end.

Definition findCompatibleConfiguration (r : Reservation)
    (conf : list configuration) : Z :=
  findCompatibleFrom 0 r conf.

(** The first loop of [matchRsvsWithConfiguration]: the pool [conf] and
    the entries built so far. *)
Fixpoint matchLoop (rsvs : list Reservation) (conf : list configuration)
    (entries : list entry) : outcome (list entry * list configuration) :=
  match rsvs with
  | [] => Value (entries, conf)
  | r :: rest =>
      let i := findCompatibleConfiguration r conf in
      if i <? 0 then matchLoop rest conf entries
      else
        match conf !! Z.to_nat i with
        | None => Panic
        | Some c =>
            matchLoop rest
              (take (Z.to_nat i) conf ++ drop (Z.to_nat (i + 1)) conf)
              (entries ++ [mkEntry c (Some r)])
        end
  end.

Definition matchRsvsWithConfiguration (rsvs : list Reservation)
    (conf : list configuration) : outcome (list entry) :=
  '(entries, conf) ← matchLoop rsvs conf [];
  Value (entries ++ map (fun c => mkEntry c None) conf).

(** *** Compliance *)

Inductive Compliance : Type := NeedsIndices | NeedsActivation | Compliant.

(** [compliance] expects a non-nil reservation. *)
Definition compliance (e : entry) (until : Time) : outcome Compliance :=
  match rsv e with
  | None => Panic
  | Some r =>
      let idxs := Filter [ByMinBW (minBW (conf e)); ByMaxBW (maxBW (conf e));
                          NotConfirmed; ByExpiration until] (Indices_ r) in
      if (length idxs =? 0)%nat then Value NeedsIndices
      else
        active ← ActiveIndex r;
        if (length (Filter [NotSwitchableFrom active] idxs) =? 0)%nat
        then Value NeedsActivation
        else Value Compliant
  end.

(** *** The manager and the keeper's effects

    The keeper reaches the clock, the router and the RPC layer through
    the [Manager] interface. A manager is a state [M] with one
    transition per method. [SetupRequest] hands back the error and the
    [Reservation] field of the request as the call leaves it. *)
Class Manager (M : Type) : Type := {
  Now : M -> Time * M;
  LocalIA : M -> Z;
  PathsTo : Z -> M -> (list snetPath * option error) * M;
  SetupRequest : SetupReq -> M -> (option error * option Reservation) * M;
  ActivateRequest :
    Request -> PathSteps -> TransportPath -> bool -> M -> option error * M }.

Context {M : Type} `{Manager M}.

(** The keeper's view of the world: the manager, and the setup
    requests handed to it so far (a record kept for the statements
    only). *)
Record world : Type := mkWorld {
  manager : M;
  issued : list SetupReq }.

Definition callNow (w : world) : Time * world :=
  let '(t, m) := Now (manager w) in (t, mkWorld m (issued w)).

Definition callPathsTo (d : Z) (w : world) : (list snetPath * option error) * world :=
  let '(res, m) := PathsTo d (manager w) in (res, mkWorld m (issued w)).

Definition callSetupRequest (req : SetupReq) (w : world)
    : (option error * option Reservation) * world :=
  let '(res, m) := SetupRequest req (manager w) in
  (res, mkWorld m (issued w ++ [req])).

Definition callActivateRequest (req : Request) (steps : PathSteps)
    (tp : TransportPath) (inReverse : bool) (w : world) : option error * world :=
  let '(err, m) := ActivateRequest req steps tp inReverse (manager w) in
  (err, mkWorld m (issued w)).

(** The loop of [askNewReservation] over the remaining paths. *)
Fixpoint tryPaths (e : entry) (now : Time) (paths : list snetPath) (w : world)
    : outcome ((option Reservation * option error) * world) :=
  match paths with
  | [] => Value ((None, Some ErrNoMorePaths), w)
  | p :: rest =>
      req ← PrepareSetupRequest e now (Time_Add now newIndexMinDuration)
              (IA_AS (LocalIA (manager w))) p;
      let '((err, reservation), w) := callSetupRequest req w in
      match err, reservation with
      | None, None => Panic (* "logic error, reservation after new request is empty" *)
      | _, Some r => Value ((Some r, err), w)
      | Some _, None => tryPaths e now rest w
      end
  end.

Definition askNewReservation (e : entry) (w : world)
    : outcome ((option Reservation * option error) * world) :=
  let '(now, w) := callNow w in
  let '((paths, err), w) := callPathsTo (dst (conf e)) w in
  match err with
  | Some err => Value ((None, Some err), w)
  | None => tryPaths e now (Eval (predicate (conf e)) paths) w
  end.

(** [activateIndex]: activates the next index locally, then asks the
    manager; the index state is rolled back when the manager fails.
    The result carries the entry's reservation after the call. *)
Definition activateIndex (r : Reservation) (w : world)
    : outcome ((option error * Reservation) * world) :=
  let '(now, w) := callNow w in
  match NextIndexToActivate r with
  | None => Panic
  | Some next =>
      let req := NewRequest now (ID r) (Idx next) (Z.of_nat (length (Steps r))) in
      '(err, r) ← SetIndexActive (req_Index req) r;
      match err with
      | Some err => Value ((Some err, r), w)
      | None =>
          let inReverse := PathType_eqb (PathType_ r) DownPath in
          let '(err, w) :=
            callActivateRequest req (Steps r) (TransportPath_ r) inReverse w in
          match err with
          | Some err =>
              (* rollback the index state *)
              '(_, r) ← SetIndexInactive r;
              Value ((Some err, r), w)
          | None => Value ((None, r), w)
          end
      end
  end.

(** Modelled from the spec: [serrors.List.Coalesce] is not among the
    sources. "If any entry errored, return ... the coalesced error":
    nil when no slot holds an error, otherwise the errors held. *)
Definition Coalesce (errs : list (option error)) : option (list error) :=
  match omap id errs with
  | [] => None
  | l => Some l
  end.

(** [OneShot] after the join: every per-entry task has written its
    slot of [times] and [errs] (the tasks run concurrently and write
    disjoint slots), and the slots are merged. *)
Definition OneShot (times : list Time) (errs : list (option error)) (w : world)
    : (Time * option (list error)) * world :=
  match Coalesce errs with
  | Some err =>
      let '(now, w) := callNow w in
      ((Time_Add now sleepAtLeast, Some err), w)
  | None =>
      (* wakeupAtLatest is the maximum to wake up the keeper *)
      let '(now, w) := callNow w in
      let wakeupAtLatest :=
        fold_left (fun wakeup t => if Time_Before t wakeup then t else wakeup)
          times (Time_Add now sleepAtMost) in
      (* but the keeper must sleep at least a minimum amount of time *)
      let '(now, w) := callNow w in
      if Time_Sub wakeupAtLatest now <? sleepAtLeast then
        let '(now, w) := callNow w in
        ((Time_Add now sleepAtLeast, None), w)
      else ((wakeupAtLatest, None), w)
  end.

End Keeper.
End reservationstore.

(** ** Package [segment]: the rest of reservation.go *)

Module segment_rest.
Import reservation segment.

(** [r.Steps[r.CurrentStep]], shared by [Ingress] and [Egress]: the
    element access panics outside the slice. *)
Definition currentStep (r : Reservation) : outcome PathStep :=
  if CurrentStep r <? 0 then Panic
  else match Steps r !! Z.to_nat (CurrentStep r) with
       | Some st => Value st
       | None => Panic
       end.

Definition Reservation_Ingress (r : Reservation) : outcome Z :=
  st ← currentStep r; Value (Ingress st).

Definition Reservation_Egress (r : Reservation) : outcome Z :=
  st ← currentStep r; Value (Egress st).

(** The errors of [Validate], named after their message. *)
Inductive ValidateError : Type :=
| ErrIDNotSet                                   (* "Reservation ID not set" *)
| ErrIndices (e : error)                        (* from base.ValidateIndices *)
| ErrInvalidActiveIndex (active : Z)            (* "invalid active index" *)
| ErrMoreThanOneActive (first another : IndexNumber) (* "more than one active index" *)
| ErrWrongSteps                                 (* "Wrong steps state" *)
| ErrSrcIngress (ingress : Z)                   (* "Wrong interface for srcIA ingress" *)
| ErrDstEgress (egress : Z)                     (* "Wrong interface for dstIA egress" *)
| ErrInconsistentInEg                           (* "Inconsistent ingress/egress ..." *)
| ErrEndProps (e : error).                      (* "validating reservation, end properties failed" *)

(** What [Validate] calls outside this file: the interfaces read from the
    data-plane path and the validation of the path-end properties. *)
Class PathChecks : Type := {
  InEgFromDataplanePath : TransportPath -> Z * Z;
  PathEndProps_Validate : PathEndProps -> option error }.

(** The loop of [Validate] over the indices, entered at position [i] with
    the local variable [activeIndex]; [whole] is [r.Indices]. *)
Fixpoint singleActiveLoop (whole : Indices) (i : Z) (l : Indices) (activeIndex : Z)
    : outcome (option ValidateError) :=
  match l with
  | [] => Value None
  | index :: rest =>
      if IndexState_eqb (State index) IndexActive then
        if negb (activeIndex =? -1) then
          match whole !! Z.to_nat activeIndex with
          | Some first => Value (Some (ErrMoreThanOneActive (Idx first) (Idx index)))
          | None => Panic
          end
        else singleActiveLoop whole (i + 1) rest i
      else singleActiveLoop whole (i + 1) rest activeIndex
  end.

Section Validation.
Context `{Base} `{PathChecks}.

(** [Validate] returns an error for invalid values; a nil receiver is
    valid. *)
Definition Validate (receiver : option Reservation) : outcome (option ValidateError) :=
  match receiver with
  | None => Value None
  | Some r =>
      if ASID (ID r) =? 0 then Value (Some ErrIDNotSet)
      else match ValidateIndices (Indices_ r) with
      | Some err => Value (Some (ErrIndices err))
      | None =>
      if (activeIndex r <? -1) || (activeIndex r >? 0)
         || (activeIndex r >=? Z.of_nat (length (Indices_ r)))
      then Value (Some (ErrInvalidActiveIndex (activeIndex r)))
      else
        res ← singleActiveLoop (Indices_ r) 0 (Indices_ r) (-1);
        match res with
        | Some err => Value (Some err)
        | None =>
        if (length (Steps r) <? 2)%nat then Value (Some ErrWrongSteps)
        else match Steps r !! 0%nat, Steps r !! (length (Steps r) - 1)%nat with
        | Some first, Some final =>
            if negb (Ingress first =? 0) then Value (Some (ErrSrcIngress (Ingress first)))
            else if negb (Egress final =? 0) then Value (Some (ErrDstEgress (Egress final)))
            else
              let '(ing, eg) := InEgFromDataplanePath (TransportPath_ r) in
              st ← currentStep r;
              if negb (ing =? Ingress st) || negb (eg =? Egress st)
              then Value (Some ErrInconsistentInEg)
              else match PathEndProps_Validate (PathEndProps_ r) with
                   | Some err => Value (Some (ErrEndProps err))
                   | None => Value None
                   end
        | _, _ => Panic
        end
        end
      end
  end.

(** [Reservation.Index]: the index with that number, or nil. *)
Definition Reservation_Index (idx : IndexNumber) (r : Reservation)
    : outcome (option Index) :=
  match FindIndex (Indices_ r) idx with
  | inr _ => Value None
  | inl sliceIndex =>
      match Indices_ r !! sliceIndex with
      | Some ix => Value (Some ix)
      | None => Panic
      end
  end.

End Validation.

(** Modelled from the spec: [reservation.MaxBWCls] is not among the
    sources; the spec's data model gives "MaxBWCls(a,b) picks the
    larger". *)
Definition MaxBWCls (a b : BWCls) : BWCls := if a <? b then b else a.

(** The conversion of a bandwidth class to kbps, whose body is not among
    the sources. *)
Class Bandwidth : Type := { ToKbps : BWCls -> Z }.

Section BlockedBandwidth.
Context `{Bandwidth}.

(** [MaxBlockedBW]: the maximum bandwidth blocked by this reservation,
    that of the maximum allocated bandwidth of its indices. *)
Definition MaxBlockedBW (r : Reservation) : Z :=
  if (length (Indices_ r) =? 0)%nat then 0
  else ToKbps (fold_left (fun max idx => MaxBWCls max (AllocBW idx)) (Indices_ r) 0).

(** [MaxRequestedBW]: the maximum bandwidth requested by this reservation. *)
Definition MaxRequestedBW (r : Reservation) : Z :=
  if (length (Indices_ r) =? 0)%nat then 0
  else ToKbps (fold_left (fun max idx => MaxBWCls max (MaxBW idx)) (Indices_ r) 0).

End BlockedBandwidth.

(** *** The data-plane path of the active index *)

(** The length of the reservation ID suffix in the info field (the
    spec's wire format: "12-byte ResIdSuffix"). *)
Definition LenSuffix : nat := 12.

(** Modelled from the spec: the types [colpath.InfoField],
    [colpath.HopField] and [colpath.ColibriPath] are not among the sources;
    the fields are those the code sets, the others keep their zero
    value. *)
Record ColibriInfoField : Type := mkColibriInfoField {
  cif_C : bool;
  cif_S : bool;
  cif_Ver : Z;
  cif_HFCount : Z;
  cif_ResIdSuffix : list Byte.byte;
  cif_ExpTick : Z;
  cif_BwCls : Z;
  cif_Rlc : Z }.

Record ColibriHopField : Type := mkColibriHopField {
  IngressId : Z;
  EgressId : Z;
  Mac : list Byte.byte }.

Record ColibriPath : Type := mkColibriPath {
  cp_InfoField : option ColibriInfoField;
  cp_HopFields : list ColibriHopField }.

(** The two methods of [colpath.ColibriPath] the derivation calls. Their
    bodies are not among the sources. [Reverse] hands back the path as the
    call leaves it. *)
Class ColibriCodec : Type := {
  ToMinimal : ColibriPath -> list Byte.byte + error;
  ReversePath : ColibriPath -> ColibriPath + error }.

(** The conversions [uint8(x)] and [uint32(x)]. *)
Definition uint8 (x : Z) : Z := x mod 2 ^ 8.
Definition uint32 (x : Z) : Z := x mod 2 ^ 32.

(** [deriveInfoField]: the info field filled with the values of the
    active index, nil if there is none. The token of the index is
    dereferenced. *)
Definition deriveInfoField (r : Reservation) : outcome (option ColibriInfoField) :=
  index ← ActiveIndex r;
  match index with
  | None => Value None
  | Some index =>
      match Token index with
      | None => Panic
      | Some tok =>
          Value (Some (mkColibriInfoField true true
                   (uint8 (Idx index))
                   (uint8 (Z.of_nat (length (tok_HopFields tok))))
                   (* the SegR ID and then 8 zeroes *)
                   (Suffix (ID r) ++ replicate (LenSuffix - IDSuffixSegLen) Byte.x00)
                   (uint32 (if_ExpirationTick (tok_InfoField tok)))
                   (uint8 (AllocBW index))
                   (uint8 (if_RLC (tok_InfoField tok)))))
      end
  end.

Definition toColibriHopField (hf : HopField) : ColibriHopField :=
  mkColibriHopField (hf_Ingress hf) (hf_Egress hf) (hf_Mac hf).

(** The loop of [deriveColibriPathAtDestination]: slot [i] receives the
    hop field at position [lhf-i-1] of the token. *)
Definition reversedHopFields (hfs : list HopField) : outcome (list ColibriHopField) :=
  let lhf := length hfs in
  foldr (fun i acc =>
           rest ← acc;
           match hfs !! (lhf - i - 1)%nat with
           | Some hf => Value (toColibriHopField hf :: rest)
           | None => Panic
           end)
        (Value []) (seq 0 lhf).

Section Derivation.
Context `{ColibriCodec}.

Definition deriveColibriPathAtSource (r : Reservation) : outcome (option (list Byte.byte)) :=
  index ← ActiveIndex r;
  match index with
  | None => Value None
  | Some index =>
      match Token index with
      | None => Panic
      | Some tok =>
          info ← deriveInfoField r;
          let p := mkColibriPath info (map toColibriHopField (tok_HopFields tok)) in
          match ToMinimal p with
          | inr _ => Value None
          | inl min => Value (Some min)
          end
      end
  end.

Definition deriveColibriPathAtDestination (r : Reservation)
    : outcome (option (list Byte.byte)) :=
  index ← ActiveIndex r;
  match index with
  | None => Value None
  | Some index =>
      match Token index with
      | None => Panic
      | Some tok =>
          info ← deriveInfoField r;
          hopFields ← reversedHopFields (tok_HopFields tok);
          let p := mkColibriPath info hopFields in
          (* because the initiator AS is actually the DstAS, reverse the path *)
          match ReversePath p with
          | inr _ => Value None
          | inl p =>
              match ToMinimal p with
              | inr _ => Value None
              | inl min => Value (Some min)
              end
          end
      end
  end.

Definition DeriveColibriPath (r : Reservation) : outcome (option (list Byte.byte)) :=
  if PathType_eqb (PathType_ r) DownPath
  then deriveColibriPathAtDestination r
  else deriveColibriPathAtSource r.

End Derivation.

End segment_rest.

(** ** Package [reservationstore]: the rest of keeper.go *)

Module keeper_rest.
Import reservation segment filters reservationstore.

(** An entry of the configuration file ([conf.ReservationEntry]) with the
    fields [parseInitial] reads. *)
Record ReservationEntry : Type := mkReservationEntry {
  DstAS : Z;
  re_PathType : PathType;
  PathPredicate : String.string;
  MinSize : BWCls;
  MaxSize : BWCls;
  re_SplitCls : SplitCls;
  EndProps : PathEndProps }.

(** [conf.Reservations]. *)
Record Reservations : Type := mkReservations { Rsvs : list ReservationEntry }.

(** The errors of [parseInitial]. *)
Inductive ParseError : Type :=
| ErrSequence (e : error)          (* from pathpol.NewSequence *)
| ErrMinAboveMax (minBW maxBW : BWCls). (* "min bw must be less or equal than max bw" *)

Section Parsing.
Context `{PathLib}.

(** The parser of path predicates, [pathpol.NewSequence], whose body is
    not among the sources. *)
Class SequenceParser : Type := { NewSequence : String.string -> Sequence + error }.

Context `{!SequenceParser}.

(** The loop of [parseInitial]: the first entry that fails ends it. *)
Fixpoint parseEntries (rsvs : list ReservationEntry) : list configuration + ParseError :=
  match rsvs with
  | [] => inl []
  | r :: rest =>
      match NewSequence (PathPredicate r) with
      | inr err => inr (ErrSequence err)
      | inl seq =>
          if MinSize r >? MaxSize r then inr (ErrMinAboveMax (MinSize r) (MaxSize r))
          else
            match parseEntries rest with
            | inr err => inr err
            | inl initial =>
                inl (mkConfiguration (DstAS r) (re_PathType r) seq (MinSize r) (MaxSize r)
                       (re_SplitCls r) (EndProps r) :: initial)
            end
      end
  end.

Definition parseInitial (conf : option Reservations) : list configuration + ParseError :=
  match conf with
  | None => inl []
  | Some conf => parseEntries (Rsvs conf)
  end.

End Parsing.

Section KeeperTasks.
Context `{Base} `{PathLib} {M : Type} `{!Manager M}.

(** [PrepareRenewalRequest] dereferences the reservation of the entry. *)
Definition PrepareRenewalRequest (e : entry) (now expTime : Time) : outcome SetupReq :=
  match rsv e with
  | None => Panic
  | Some r =>
      Value (mkSetupReq
               (NewRequest now (ID r) (NextIndexToRenew r) (Z.of_nat (length (Steps r))))
               expTime (pathType (conf e)) (minBW (conf e)) (maxBW (conf e))
               (TrafficSplit r) (PathEndProps_ r) (Steps r) 0 (TransportPath_ r) (Some r))
  end.

(** [askNewIndices] requests a renewal and returns the manager's error. *)
Definition askNewIndices (e : entry) (w : world) : outcome (option error * world) :=
  let '(now, w) := callNow w in
  req ← PrepareRenewalRequest e now (Time_Add now newIndexMinDuration);
  let '((err, _), w) := callSetupRequest req w in
  Value (err, w).

(** A renewal request points to the reservation of the entry, which the
    manager may change through the pointer: [renewed w w' r] is the state
    in which the call of [askNewIndices] that takes the world from [w] to
    [w'] leaves the reservation [r] of the entry. *)
Class RenewalEffect : Type := {
  renewed : world (M := M) -> world (M := M) -> Reservation -> Reservation }.

Context `{!RenewalEffect}.

(** [keepReservation] ensures that the reservation exists or a request is
    created. The result carries the entry after the call. *)
Definition keepReservation (e : entry) (w : world)
    : outcome ((Time * option error) * entry * world) :=
  let '(now, w) := callNow w in
  '(stop, e, w) ←
    match rsv e with
    | Some _ => Value (None, e, w)
    | None =>
        '((r, err), w) ← askNewReservation e w;
        Value (err, mkEntry (conf e) r, w)
    end;
  match stop with
  | Some err => Value ((zeroTime, Some err), e, w)
  | None =>
      let '(now', w) := callNow w in
      c ← compliance e (Time_Add now' minDuration);
      '(err, e, w) ←
        match c with
        | Compliant => Value (None, e, w)
        | NeedsIndices =>
            '(err, w') ← askNewIndices e w;
            Value (err, mkEntry (conf e) (renewed w w' <$> rsv e), w')
        | NeedsActivation =>
            match rsv e with
            | None => Panic
            | Some r =>
                '((err, r), w) ← activateIndex r w;
                Value (err, mkEntry (conf e) (Some r), w)
            end
        end;
      match err with
      | Some err => Value ((zeroTime, Some err), e, w)
      | None => Value ((Time_Add now newIndexMinDuration, None), e, w)
      end
  end.

(** The keeper: its entries and the time until which it has nothing to
    do (the manager is the state the keeper runs in). *)
Record keeper : Type := mkKeeper {
  sleepUntil : Time;
  entries : list entry }.

(** What [NewKeeper] asks of the manager besides the methods above. *)
Class Storage : Type := {
  DeleteExpiredIndices : M -> option error * M;
  GetReservationsAtSource : M -> (list Reservation * option error) * M }.

(** The errors of [NewKeeper]: those of the configuration and those of
    the manager. *)
Inductive NewKeeperError : Type :=
| ErrConfiguration (e : ParseError)
| ErrManager (e : error).

Context `{!SequenceParser} `{!Storage}.

(** [NewKeeper]; [wall] is the reading of [time.Now()]. *)
Definition NewKeeper (wall : Time) (m : M) (conf : option Reservations)
    : outcome ((keeper + NewKeeperError) * M) :=
  (* load configuration *)
  match parseInitial conf with
  | inr err => Value (inr (ErrConfiguration err), m)
  | inl reqs =>
      (* cleanup expired indices before reading reservations *)
      match DeleteExpiredIndices m with
      | (Some err, m) => Value (inr (ErrManager err), m)
      | (None, m) =>
          (* get existing reservations *)
          match GetReservationsAtSource m with
          | ((_, Some err), m) => Value (inr (ErrManager err), m)
          | ((rsvs, None), m) =>
              entries ← matchRsvsWithConfiguration rsvs reqs;
              Value (inl (mkKeeper (Time_Add wall (-1)) entries), m)
          end
      end
  end.

End KeeperTasks.

End keeper_rest.

(** ** Package [reservationstore]: the manager's periodic task (manager.go) *)

Module manager_task.

(** [findEarliest]: the earliest of the times, the zero time if none. *)
Definition findEarliest (times : list Time) : Time :=
  match times with
  | [] => zeroTime
  | first :: rest =>
      fold_left (fun earliest t => if Time_Before t earliest then t else earliest)
        rest first
  end.

(** The deadlines of the manager. *)
Record manager : Type := mkManager {
  wakeupTime : Time;          (* no need to do anything until this time *)
  wakeupListSegs : Time;
  wakeupListE2Es : Time;
  wakeupKeeper : Time;        (* wake up the keeper (new rsvs/indices) *)
  wakeupExpirer : Time;       (* wake up the colibri reservation expire routine *)
  wakeupAdmissionList : Time }.

(** What one call of [Run] reads from outside: the clocks, the store and
    the keeper. Each sub-task writes its own deadline, so the order in
    which the five concurrent sub-tasks run does not show in the
    deadlines. *)
Record readings : Type := mkReadings {
  wallStart : Time;       (* now := time.Now() *)
  storeReady : bool;      (* m.store.Ready() *)
  clockNotReady : Time;   (* m.Now(), read when the store is not ready *)
  wallSegs : Time;        (* time.Now() when the segment report ends *)
  wallE2Es : Time;        (* time.Now() when the e2e report ends *)
  keeperWakeup : Time;    (* the time returned by m.keeper.OneShot *)
  expirerWakeup : Time;   (* the time returned by store.DeleteExpiredIndices *)
  admissionWakeup : Time  (* the time returned by store.DeleteExpiredAdmissionEntries *) }.

(** [t.IsZero()]. *)
Definition Time_IsZero (t : Time) : bool := t =? zeroTime.

(** The deadline a sweep of the store leaves: untouched when not yet due,
    otherwise the time given by the store, or 8 seconds from [now] when
    the store gives none. *)
Definition sweepDeadline (now deadline fromStore : Time) : Time :=
  if Time_Before now deadline then deadline
  else if Time_IsZero fromStore then Time_Add now (8 * Second)
  else fromStore.

Definition Run (m : manager) (x : readings) : manager :=
  let now := wallStart x in
  if Time_Before now (wakeupTime m) then m
  else if negb (storeReady x) then
    mkManager (Time_Add (clockNotReady x) (2 * Second)) (wakeupListSegs m)
      (wakeupListE2Es m) (wakeupKeeper m) (wakeupExpirer m) (wakeupAdmissionList m)
  else
    let listSegs := Time_Add (wallSegs x) (10 * Minute) in
    let listE2Es := Time_Add (wallE2Es x) (5 * Minute) in
    let keeper :=
      if Time_Before now (wakeupKeeper m) then wakeupKeeper m else keeperWakeup x in
    let expirer := sweepDeadline now (wakeupExpirer m) (expirerWakeup x) in
    let admission := sweepDeadline now (wakeupAdmissionList m) (admissionWakeup x) in
    mkManager (findEarliest [listSegs; listE2Es; keeper; expirer; admission])
      listSegs listE2Es keeper expirer admission.

End manager_task.

(** * Properties *)

Import reservation segment filters reservationstore.

(** ** Reservation states and sample data *)

Section ReservationStates.
Context `{Base}.

(** The states a reservation goes through when it is created by
    [NewReservation] and then only touched by its mutators, whether
    these succeed or return an error. *)
Inductive reachable : Reservation -> Prop :=
| reach_New asid : reachable (NewReservation asid)
| reach_NewIndex r idx expTime minBW maxBW allocBW rlc pathType res r' :
    reachable r ->
    Reservation_NewIndex idx expTime minBW maxBW allocBW rlc pathType r = Value (res, r') ->
    reachable r'
| reach_SetIndexConfirmed r idx err r' :
    reachable r -> SetIndexConfirmed idx r = Value (err, r') -> reachable r'
| reach_SetIndexActive r idx err r' :
    reachable r -> SetIndexActive idx r = Value (err, r') -> reachable r'
| reach_SetIndexInactive r r' :
    reachable r -> SetIndexInactive r = Value (tt, r') -> reachable r'
| reach_RemoveIndex r idx err r' :
    reachable r -> RemoveIndex idx r = Value (err, r') -> reachable r'.

End ReservationStates.

(** At most one index of the list is active. *)
Definition atMostOneActive (l : Indices) : Prop :=
  forall i j ixi ixj,
    l !! i = Some ixi -> l !! j = Some ixj ->
    State ixi = IndexActive -> State ixj = IndexActive -> i = j.

(** The invariant the mutators maintain: the active position is -1 or 0,
    lies inside the list, and marks exactly the index in state active. *)
Definition activeAtFront (r : Reservation) : Prop :=
  (activeIndex r = -1 \/ activeIndex r = 0) /\
  activeIndex r < Z.of_nat (length (Indices_ r)) /\
  forall i ix, Indices_ r !! i = Some ix ->
    (State ix = IndexActive <-> Z.of_nat i = activeIndex r).


(** An index with everything but its number and state left at zero. *)
Definition sampleIndex (n : IndexNumber) (st : IndexState) : Index :=
  NewIndex n 0 st 0 0 0 None.

Definition sampleReservation (l : Indices) (active : Z) : Reservation :=
  withActiveIndex active (withIndices l (NewReservation 1)).

(** A reservation holding a pending index 0 followed by an active index 1,
    with the active position on the latter. *)
Definition pendingThenActive : Reservation :=
  sampleReservation [sampleIndex 0 IndexPending; sampleIndex 1 IndexActive] 1.

(** The reservation a call leaves behind. *)
Definition stateAfter {A : Type} (m : outcome (A * Reservation)) : Reservation :=
  match m with
  | Value (_, r) => r
  | Panic => NewReservation 0
  end.

(** A reservation built by the mutators, with the [base] package the
    specification describes: index 0 is created, confirmed and activated,
    then index 1 is created and left temporary. *)
Definition created0 : Reservation :=
  Eval vm_compute in
    stateAfter (Reservation_NewIndex 0 0 0 0 0 0 UpPath (NewReservation 1)).
Definition confirmed0 : Reservation :=
  Eval vm_compute in stateAfter (SetIndexConfirmed 0 created0).
Definition activated0 : Reservation :=
  Eval vm_compute in stateAfter (SetIndexActive 0 confirmed0).
Definition activeThenTemporary : Reservation :=
  Eval vm_compute in
    stateAfter (Reservation_NewIndex 1 0 0 0 0 0 UpPath activated0).

(** The same reservation once index 1 is confirmed: index 0 is active at
    position 0 and index 1 is pending behind it. *)
Definition activeThenPending : Reservation :=
  Eval vm_compute in stateAfter (SetIndexConfirmed 1 activeThenTemporary).

(** The reading of [NextIndexToActivate] by the words of the
    specification: the first pending index strictly after the active one,
    or the last index when none is active. *)
Definition firstPendingAfterActive (r : Reservation) : option Index :=
  if activeIndex r <? 0 then last (Indices_ r)
  else List.find (fun ix => IndexState_eqb (State ix) IndexPending)
         (drop (S (Z.to_nat (activeIndex r))) (Indices_ r)).

(** Two pending indices and no active one. *)
Definition twoPending : Reservation :=
  sampleReservation [sampleIndex 0 IndexPending; sampleIndex 1 IndexPending] (-1).

(** After index 14, an index numbered 15 closes the ring. *)
Definition endOfRing : Reservation :=
  sampleReservation [sampleIndex 14 IndexActive; sampleIndex 15 IndexPending] 0.

(** ** The greedy matching, as the specification words it *)

Section GreedyMatching.
Context `{PathLib}.

(** [greedy pool rsvs entries]: the reservations are taken in order; a
    reservation compatible with no configuration of the pool is dropped;
    otherwise it claims the first compatible configuration, which leaves
    the pool; the configurations left in the pool at the end yield
    entries without a reservation. *)
Inductive greedy : list configuration -> list Reservation -> list entry -> Prop :=
| greedy_unclaimed pool :
    greedy pool [] (map (fun c => mkEntry c None) pool)
| greedy_drop pool r rsvs entries :
    Forall (fun c => compatible r c = false) pool ->
    greedy pool rsvs entries ->
    greedy pool (r :: rsvs) entries
| greedy_claim pre c post r rsvs entries :
    Forall (fun c' => compatible r c' = false) pre ->
    compatible r c = true ->
    greedy (pre ++ post) rsvs entries ->
    greedy (pre ++ c :: post) (r :: rsvs) (mkEntry c (Some r) :: entries).

End GreedyMatching.

(** ** The next wake-up, as the specification words it *)

(** The minimum of the per-entry times, when there is one. *)
Definition earliest (times : list Time) : option Time :=
  match times with
  | [] => None
  | t :: rest => Some (fold_right Z.min t rest)
  end.

(** [t] clamped into the closed interval from [lo] to [hi]. *)
Definition clamp (lo hi t : Time) : Time := Z.max lo (Z.min hi t).

(** ** Setup requests over candidate paths, as the specification words it *)

Section SetupAttempts.
Context `{PathLib} {M : Type} `{!Manager M}.

(** [req] is the setup request prepared for path [p] at time [now]: it
    carries index number 0 and expires at [now + newIndexMinDuration]. *)
Definition preparedFor (e : entry) (now : Time) (p : snetPath) (req : SetupReq) : Prop :=
  (exists localAS,
      PrepareSetupRequest e now (now + newIndexMinDuration) localAS p = Value req) /\
  req_Index (sr_Request req) = 0 /\
  sr_ExpirationTime req = now + newIndexMinDuration.

(** [refused e now paths w reqs w']: from the world [w], a setup request
    is issued for each of [paths] in turn, and each one fails: the
    manager returns an error and leaves no reservation in the request.
    [reqs] are the requests issued and [w'] is the world reached. *)
Inductive refused (e : entry) (now : Time)
    : list snetPath -> world -> list SetupReq -> world -> Prop :=
| refused_nil w : refused e now [] w [] w
| refused_cons p paths w req err m reqs w' :
    PrepareSetupRequest e now (now + newIndexMinDuration)
      (IA_AS (LocalIA (manager w))) p = Value req ->
    SetupRequest req (manager w) = ((Some err, None), m) ->
    refused e now paths (mkWorld m (issued w ++ [req])) reqs w' ->
    refused e now (p :: paths) w (req :: reqs) w'.

End SetupAttempts.

(** ** Stand-ins for the collaborators, used on concrete inputs *)

(** A path library in which a path is its list of steps and a predicate
    is the exact sequence of ASes to traverse. *)
#[export] Instance listPathLib : PathLib := {|
  snetPath := PathSteps;
  Sequence := list Z;
  PathInterface := Z;
  EvalInterfaces := fun seq ifaces => bool_decide (seq = ifaces);
  Eval := fun seq paths => List.filter (fun p => bool_decide (seq = map IA p)) paths;
  StepsFromSnet := fun p => inl p;
  PathFromDataplanePath := fun _ => (None, None);
  DstIA := fun steps => match last steps with Some st => IA st | None => 0 end;
  Interfaces := fun steps => map IA steps;
  Reverse := fun steps => rev (map (fun st => mkStep (Egress st) (Ingress st) (IA st)) steps)
|}.

(** A manager that follows a script: a frozen clock, the paths the router
    returns, the replies to the successive setup requests, and the reply
    to every activation request. *)
Record script : Type := mkScript {
  clock : Time;
  routerPaths : list PathSteps;
  setupReplies : list (option error * option Reservation);
  activateReply : option error }.

#[export] Instance scriptedManager : Manager script := {|
  Now := fun m => (clock m, m);
  LocalIA := fun _ => 1;
  PathsTo := fun _ m => ((routerPaths m, None), m);
  SetupRequest := fun _ m =>
    match setupReplies m with
    | [] => ((Some (ErrCollaborator 0), None), m)
    | reply :: rest =>
        (reply, mkScript (clock m) (routerPaths m) rest (activateReply m))
    end;
  ActivateRequest := fun _ _ _ _ m => (activateReply m, m)
|}.

(** The configuration and the reservations of the compliance tests in
    keeper_test.go: instants count from 0 and [tomorrow] is a day later. *)
Definition tomorrow : Time := 3600 * 24 * Second.

Definition testConf : configuration :=
  mkConfiguration 2 UpPath [1; 2] 10 42 2 49.

Definition testIndex (n : IndexNumber) (expiration : Time) (st : IndexState)
    (minBW maxBW : BWCls) : Index :=
  NewIndex n expiration st minBW maxBW 0 None.

Definition testRsv (l : Indices) (active : Z) : Reservation :=
  mkReservation (mkID 1 (replicate IDSuffixSegLen Byte.x00)) l active
    UpPath 49 2 [mkStep 0 1 1; mkStep 1 0 2] 0 None.

Definition testEntry (l : Indices) (active : Z) : entry :=
  mkEntry testConf (Some (testRsv l active)).

(** An entry whose only index, active, expires two nanoseconds after the
    horizon [minDuration] of an evaluation at time 0. *)
Definition shortLived : entry :=
  testEntry [testIndex 0 (minDuration + 2) IndexActive 12 24] 0.

(** The manager of the keeper tests: the clock (here at 10) and the local
    IA are fixed, the router knows no path and every request fails. *)
#[export] Instance mockManager : Manager unit := {|
  Now := fun m => (10, m);
  LocalIA := fun _ => 1;
  PathsTo := fun _ m => (([], None), m);
  SetupRequest := fun _ m => ((Some (ErrCollaborator 0), None), m);
  ActivateRequest := fun _ _ _ _ m => (Some (ErrCollaborator 0), m)
|}.

(** The reservations and configurations of TestMatchRsvsWithConfiguration
    in keeper_test.go, which differ by their traffic split. *)
Definition splitRsv (split : SplitCls) : Reservation :=
  mkReservation (mkID 1 (replicate IDSuffixSegLen Byte.x00)) [] (-1)
    UpPath 1 split [mkStep 0 1 1; mkStep 1 0 2] 0 None.

Definition splitConf (split : SplitCls) : configuration :=
  mkConfiguration 2 UpPath [1; 2] 0 0 split 1.

(** Three candidate paths to AS 2: through AS 3, and twice directly. *)
Definition viaThree : PathSteps := [mkStep 0 1 1; mkStep 2 3 3; mkStep 4 0 2].
Definition directA : PathSteps := [mkStep 0 1 1; mkStep 1 0 2].
Definition directB : PathSteps := [mkStep 0 2 1; mkStep 3 0 2].

(** A keeper entry still without a reservation. *)
Definition freshEntry : entry := mkEntry testConf None.

(** The router returns the three paths; the first setup request is
    refused, the second leaves a reservation and reports an error. *)
Definition setupScript : script :=
  mkScript 5 [viaThree; directA; directB]
    [(Some (ErrCollaborator 1), None);
     (Some (ErrCollaborator 2), Some (testRsv [] (-1)))]
    None.

(** The same router, refusing every setup request. *)
Definition refusingScript : script :=
  mkScript 5 [viaThree; directA; directB]
    [(Some (ErrCollaborator 1), None); (Some (ErrCollaborator 2), None)]
    None.

(** A manager whose activation request fails. *)
Definition failingActivation : script :=
  mkScript 5 [] [] (Some (ErrCollaborator 3)).

(** The request the keeper prepares for a path at time 5. *)
Definition requestAt5 (p : PathSteps) : SetupReq :=
  mkSetupReq (NewRequest 5 (mkID 1 (replicate IDSuffixSegLen Byte.x00)) 0 2)
    (5 + newIndexMinDuration) UpPath 10 42 2 49 p 0 None None.

(** ** Stand-ins and sample data for the further properties *)

(** The indices of a mutator-built reservation carry the token [NewIndex]
    gave them: same number, the tick of the expiration and the allocated
    class. *)
Definition tokenMatches (ix : Index) : Prop :=
  exists tok,
    Token ix = Some tok /\
    if_Idx (tok_InfoField tok) = Idx ix /\
    if_ExpirationTick (tok_InfoField tok) = TickFromTime (Expiration ix) /\
    if_BWCls (tok_InfoField tok) = AllocBW ix.

(** Checks that accept the reservations of the keeper tests: a nil
    transport path reads as the interfaces 0 and 1. *)
#[export] Instance samplePathChecks : segment_rest.PathChecks := {|
  segment_rest.InEgFromDataplanePath := fun _ => (0, 1);
  segment_rest.PathEndProps_Validate := fun _ => None |}.

(** A monotone conversion to kbps. *)
#[export] Instance sampleBandwidth : segment_rest.Bandwidth := {|
  segment_rest.ToKbps := fun b => 16 * b |}.

(** A reservation that passes every check of [Validate]. *)
Definition validRsv : Reservation := testRsv [sampleIndex 0 IndexActive] 0.

(** Three indices with growing allocations. *)
Definition threeAllocations : Reservation :=
  sampleReservation
    [NewIndex 0 0 IndexActive 1 9 3 None; NewIndex 1 0 IndexPending 1 9 7 None;
     NewIndex 2 0 IndexTemporary 1 9 5 None] 0.

(** A codec that concatenates the MACs of the hop fields, and reverses
    a path by reversing its hop fields. *)
#[export] Instance sampleCodec : segment_rest.ColibriCodec := {|
  segment_rest.ToMinimal := fun p =>
    inl (concat (map segment_rest.Mac (segment_rest.cp_HopFields p)));
  segment_rest.ReversePath := fun p =>
    inl (segment_rest.mkColibriPath (segment_rest.cp_InfoField p)
           (rev (segment_rest.cp_HopFields p))) |}.

(** A down-path reservation whose active index has a token with two hop
    fields. *)
Definition twoHops : list HopField :=
  [mkHopField 0 1 [Byte.x01]; mkHopField 2 0 [Byte.x02]].

Definition downRsv : Reservation :=
  mkReservation (mkID 1 (replicate IDSuffixSegLen Byte.x00))
    [NewIndex 0 0 IndexActive 0 0 0 (Some (mkToken (mkInfoField 0 0 0 0 DownPath) twoHops))]
    0 DownPath 0 0 [] 0 None.

(** A parser that refuses the empty predicate and reads every other one
    as the sequence of the ASes 1 and 2. *)
#[export] Instance sampleParser : keeper_rest.SequenceParser := {|
  keeper_rest.NewSequence := fun s =>
    match s with
    | String.EmptyString => inr (ErrCollaborator 9)
    | _ => inl [1; 2]
    end |}.

(** The predicate "a". *)
Definition somePredicate : String.string :=
  String.String (Ascii.Ascii true false false false false true true false)
    String.EmptyString.

Definition goodEntry : keeper_rest.ReservationEntry :=
  keeper_rest.mkReservationEntry 2 UpPath somePredicate 10 42 2 49.

Definition badEntry : keeper_rest.ReservationEntry :=
  keeper_rest.mkReservationEntry 2 UpPath somePredicate 42 10 2 49.

(** A store without reservations that never fails. *)
#[export] Instance emptyStorage : keeper_rest.Storage (M := script) := {|
  keeper_rest.DeleteExpiredIndices := fun m => (None, m);
  keeper_rest.GetReservationsAtSource := fun m => (([], None), m) |}.

(** A manager that leaves the reservation of a renewal request alone. *)
#[export] Instance untouched : keeper_rest.RenewalEffect (M := script) := {|
  keeper_rest.renewed := fun _ _ r => r |}.

(** A compliant entry of the keeper tests, and a script with the clock
    at 5. *)
Definition compliantEntry : entry :=
  testEntry [testIndex 0 tomorrow IndexActive 12 24] 0.

Definition quietScript : script := mkScript 5 [] [] None.

(** An entry whose reservation has one confirmed index and no active
    one. *)
Definition pendingRsv : Reservation := testRsv [testIndex 0 tomorrow IndexPending 12 24] (-1).

(** The deadlines of a manager that is due, and what a call reads. *)
Definition dueManager : manager_task.manager :=
  manager_task.mkManager 100 0 0 50 500 60.

Definition sampleReadings : manager_task.readings :=
  manager_task.mkReadings 100 true 100 101 102 (100 + 4 * Second) 0 zeroTime.

(** The mock manager, too, leaves the reservation of a renewal request
    alone. *)
#[export] Instance untouchedMock : keeper_rest.RenewalEffect (M := unit) := {|
  keeper_rest.renewed := fun _ _ r => r |}.

(** A router that only knows the path through AS 3, which the predicate
    of the test configuration does not keep. *)
Definition detourScript : script := mkScript 5 [viaThree] [] None.

(** ** Facts about the reservation mutators *)

Lemma IndexState_eqb_neq a b : IndexState_eqb a b = false <-> a <> b.
Proof. destruct a, b; simpl; split; congruence. Qed.

Lemma State_setState s ix : State (setState s ix) = s.
Proof. reflexivity. Qed.


Section Invariant.
Context `{Base}.

Lemma activeAtFront_New asid : activeAtFront (NewReservation asid).
Proof.
  split; [left; reflexivity |]. split; [simpl; lia |].
  intros i ix Hi. simpl in Hi. rewrite lookup_nil in Hi. discriminate.
Qed.

Lemma activeAtFront_addIndex index r res r' :
  State index = IndexTemporary ->
  activeAtFront r -> addIndex index r = Value (res, r') -> activeAtFront r'.
Proof.
  intros Hst (Hrange & Hlen & Hiff). unfold addIndex.
  destruct (ValidateIndices _); intros [= <- <-]; [repeat split; auto; apply Hiff; auto|].
  split; [exact Hrange |]. split; [simpl; rewrite length_app; simpl; lia |].
  intros i ix Hi. simpl in Hi.
  apply lookup_app_Some in Hi as [Hl | [Hge Hr]]; [apply Hiff; exact Hl |].
  apply list_lookup_singleton_Some in Hr as [_ <-]. simpl.
  split; [congruence | lia].
Qed.

Lemma activeAtFront_SetIndexConfirmed idx r err r' :
  activeAtFront r -> SetIndexConfirmed idx r = Value (err, r') -> activeAtFront r'.
Proof.
  intros (Hrange & Hlen & Hiff). unfold SetIndexConfirmed.
  destruct (FindIndex _ _) as [s | e];
    [| intros [= <- <-]; repeat split; auto; apply Hiff; auto].
  destruct (Indices_ r !! s) as [ix |] eqn:Hs; [| discriminate].
  destruct (IndexState_eqb (State ix) IndexActive) eqn:Hact;
    intros [= <- <-]; [repeat split; auto; apply Hiff; auto |].
  apply IndexState_eqb_neq in Hact.
  split; [exact Hrange |]. split; [simpl; rewrite length_alter; exact Hlen |].
  intros i ix' Hi. simpl in Hi.
  destruct (decide (s = i)) as [-> | Hne].
  - rewrite list_lookup_alter_eq, Hs in Hi. injection Hi as <-.
    rewrite State_setState. split; [discriminate |].
    intros Hpos. exfalso. apply Hact. apply (Hiff i ix); auto.
  - rewrite list_lookup_alter_ne in Hi by done. apply Hiff; exact Hi.
Qed.

End Invariant.

Section InvariantActivation.
Context `{Base}.

Lemma activeAtFront_SetIndexActive idx r err r' :
  activeAtFront r -> SetIndexActive idx r = Value (err, r') -> activeAtFront r'.
Proof.
  intros Hinv. pose proof Hinv as (Hrange & Hlen & Hiff). unfold SetIndexActive.
  destruct (FindIndex _ _) as [s | e]; [| intros [= <- <-]; exact Hinv].
  destruct (activeIndex r =? Z.of_nat s) eqn:Hsame; [intros [= <- <-]; exact Hinv |].
  apply Z.eqb_neq in Hsame.
  destruct (Indices_ r !! s) as [ix |] eqn:Hs; [| discriminate].
  destruct (negb _ && negb _); [intros [= <- <-]; exact Hinv |].
  destruct ((activeIndex r >? -1) && (activeIndex r >? Z.of_nat s)) eqn:Hpast.
  { destruct (Indices_ r !! Z.to_nat (activeIndex r)); [| discriminate].
    intros [= <- <-]; exact Hinv. }
  destruct (drop s (Indices_ r) !! 0%nat) as [ix0 |] eqn:H0; [| discriminate].
  intros [= <- <-].
  split; [right; reflexivity |].
  split.
  { simpl. rewrite length_alter. apply lookup_lt_Some in H0. lia. }
  intros i ix' Hi. simpl in Hi |- *.
  destruct i as [| i].
  - rewrite list_lookup_alter_eq, H0 in Hi. injection Hi as <-.
    rewrite State_setState. split; intros _; reflexivity.
  - rewrite list_lookup_alter_ne in Hi by done.
    rewrite lookup_drop in Hi. apply Hiff in Hi.
    split; [| lia]. intros Hact. apply Hi in Hact. lia.
Qed.

Lemma activeAtFront_SetIndexInactive r r' :
  activeAtFront r -> SetIndexInactive r = Value (tt, r') -> activeAtFront r'.
Proof.
  intros Hinv. pose proof Hinv as (Hrange & Hlen & Hiff). unfold SetIndexInactive.
  destruct (activeIndex r =? 0) eqn:Hzero; [| intros [= <-]; exact Hinv].
  apply Z.eqb_eq in Hzero.
  destruct (Indices_ r !! 0%nat) as [ix0 |] eqn:H0; [| discriminate].
  intros [= <-].
  split; [left; reflexivity |].
  split; [simpl; lia |].
  intros i ix' Hi. simpl in Hi |- *.
  destruct i as [| i].
  - rewrite list_lookup_alter_eq, H0 in Hi. injection Hi as <-.
    rewrite State_setState. split; [discriminate | lia].
  - rewrite list_lookup_alter_ne in Hi by done. apply Hiff in Hi.
    split; [| lia]. intros Hact. apply Hi in Hact. lia.
Qed.

Lemma activeAtFront_RemoveIndex idx r err r' :
  activeAtFront r -> RemoveIndex idx r = Value (err, r') -> activeAtFront r'.
Proof.
  intros Hinv. pose proof Hinv as (Hrange & Hlen & Hiff). unfold RemoveIndex.
  destruct (FindIndex _ _) as [s | e]; [| intros [= <- <-]; exact Hinv].
  destruct (length (Indices_ r) <? S s)%nat; [discriminate |].
  simpl.
  destruct (Z.gtb_spec (activeIndex r) (Z.of_nat s)) as [Hgt | _]; [lia |].
  intros [= <- <-].
  split; [left; reflexivity |].
  split; [simpl; lia |].
  intros i ix' Hi. simpl in Hi |- *.
  rewrite lookup_drop in Hi. apply Hiff in Hi.
  split; [| lia]. intros Hact. apply Hi in Hact. lia.
Qed.

Lemma reachable_activeAtFront r : reachable r -> activeAtFront r.
Proof.
  induction 1 as [asid | r idx expTime mn mx al rlc pt res r' _ IH Hstep
                  | r idx err r' _ IH Hstep | r idx err r' _ IH Hstep
                  | r r' _ IH Hstep | r idx err r' _ IH Hstep].
  - apply activeAtFront_New.
  - unfold Reservation_NewIndex in Hstep.
    eapply activeAtFront_addIndex; [| exact IH | exact Hstep]. reflexivity.
  - eapply activeAtFront_SetIndexConfirmed; eauto.
  - eapply activeAtFront_SetIndexActive; eauto.
  - eapply activeAtFront_SetIndexInactive; eauto.
  - eapply activeAtFront_RemoveIndex; eauto.
Qed.

(** C2. Every reservation state reachable from [NewReservation] through
    the mutators [NewIndex], [SetIndexConfirmed], [SetIndexActive],
    [SetIndexInactive] and [RemoveIndex] has its active position at -1
    or 0, and at most one index in state active. *)
Theorem reachable_single_active r :
  reachable r ->
  (activeIndex r = -1 \/ activeIndex r = 0) /\ atMostOneActive (Indices_ r).
Proof.
  intros Hr. apply reachable_activeAtFront in Hr as (Hrange & _ & Hiff).
  split; [exact Hrange |].
  intros i j ixi ixj Hi Hj Hai Haj.
  apply Hiff in Hi. apply Hiff in Hj.
  apply Hi in Hai. apply Hj in Haj. lia.
Qed.

End InvariantActivation.

(** ** Activation *)

Section Activation.
Context `{Base}.

(** A successful activation behind the active position, in full. *)
Lemma SetIndexActive_behind r k p ix :
  FindIndex (Indices_ r) k = inl p ->
  Indices_ r !! p = Some ix ->
  State ix = IndexPending \/ State ix = IndexActive ->
  activeIndex r < Z.of_nat p ->
  SetIndexActive k r =
    Value (None, withIndices (alter (setState IndexActive) 0%nat (drop p (Indices_ r)))
                   (withActiveIndex 0 r)).
Proof.
  intros Hfind Hp Hst Hlt. unfold SetIndexActive. rewrite Hfind.
  destruct (Z.eqb_spec (activeIndex r) (Z.of_nat p)) as [Heq | _]; [lia |].
  rewrite Hp.
  replace (negb (IndexState_eqb (State ix) IndexPending)
           && negb (IndexState_eqb (State ix) IndexActive)) with false
    by (destruct Hst as [-> | ->]; reflexivity).
  replace ((activeIndex r >? -1) && (activeIndex r >? Z.of_nat p)) with false
    by (destruct (Z.gtb_spec (activeIndex r) (Z.of_nat p)); [lia |];
        symmetry; apply andb_false_r).
  assert (Hhead : drop p (Indices_ r) !! 0%nat = Some ix)
    by (rewrite lookup_drop, Nat.add_0_r; exact Hp).
  rewrite Hhead. reflexivity.
Qed.


(** C3. If the reservation has an active index at position [a] and
    [SetIndexActive k] is called for an index at a strictly earlier
    position, the call returns an error of kind StateError and the
    reservation is unchanged. *)
Theorem SetIndexActive_past_refused r k p a ixa :
  activeIndex r = Z.of_nat a ->
  Indices_ r !! a = Some ixa ->
  FindIndex (Indices_ r) k = inl p ->
  (p < a)%nat ->
  exists e, SetIndexActive k r = Value (Some e, r) /\ kind e = StateError.
Proof.
  intros Hact Ha Hfind Hlt. unfold SetIndexActive. rewrite Hfind.
  destruct (Z.eqb_spec (activeIndex r) (Z.of_nat p)) as [Heq | _]; [lia |].
  assert (Hin : (p < length (Indices_ r))%nat)
    by (apply lookup_lt_Some in Ha; lia).
  apply lookup_lt_is_Some_2 in Hin as [ix Hp]. rewrite Hp.
  destruct (negb _ && negb _).
  - exists ErrNotConfirmed. split; reflexivity.
  - replace ((activeIndex r >? -1) && (activeIndex r >? Z.of_nat p)) with true.
    + rewrite Hact, Nat2Z.id, Ha. exists ErrPastIndex. split; reflexivity.
    + symmetry. apply andb_true_iff. split; apply Z.gtb_lt; lia.
Qed.

(** C4, amended. [NextIndexToActivate] returns nothing on an empty list;
    with no active index it returns the last index; otherwise it
    returns the index right after the active position, whatever its
    state, and nothing when the active index is the last one. *)
Theorem NextIndexToActivate_position r :
  (Indices_ r = [] -> NextIndexToActivate r = None) /\
  (activeIndex r < 0 -> NextIndexToActivate r = last (Indices_ r)) /\
  (0 <= activeIndex r ->
     NextIndexToActivate r = Indices_ r !! S (Z.to_nat (activeIndex r))).
Proof.
  unfold NextIndexToActivate. split; [intros ->; reflexivity |]. split.
  - intros Hneg. destruct (Indices_ r) as [| ix l] eqn:Hl using rev_ind; [reflexivity |].
    rewrite length_app. simpl.
    destruct (Z.eqb_spec (Z.of_nat (length l + 1)) 0); [lia |].
    destruct (Z.ltb_spec (activeIndex r) 0); [| lia].
    rewrite last_snoc.
    replace (Z.to_nat (Z.of_nat (length l + 1) - 1)) with (length l) by lia.
    rewrite lookup_app_r by lia. rewrite Nat.sub_diag. reflexivity.
  - intros Hpos.
    destruct (Z.eqb_spec (Z.of_nat (length (Indices_ r))) 0) as [Hz | Hnz].
    + symmetry. apply lookup_ge_None. lia.
    + destruct (Z.ltb_spec (activeIndex r) 0); [lia |].
      destruct (Z.ltb_spec (activeIndex r + 1) (Z.of_nat (length (Indices_ r)))).
      * f_equal. lia.
      * symmetry. apply lookup_ge_None. lia.
Qed.

(** C8. [NextIndexToRenew] returns 0 on an empty list and otherwise the
    number of the last index plus one modulo 16; after an index
    numbered 15 it returns 0. *)
Theorem NextIndexToRenew_ring r :
  (Indices_ r = [] -> NextIndexToRenew r = 0) /\
  (forall ix, last (Indices_ r) = Some ix ->
     NextIndexToRenew r = (Idx ix + 1) mod 16) /\
  (forall ix, last (Indices_ r) = Some ix -> Idx ix = 15 ->
     NextIndexToRenew r = 0).
Proof.
  unfold NextIndexToRenew. split; [intros ->; reflexivity |].
  split; [intros ix ->; reflexivity | intros ix -> ->; reflexivity].
Qed.

End Activation.

(** ** The activation properties on concrete reservations *)

Lemma reachable_activeThenTemporary : reachable activeThenTemporary.
Proof.
  apply (reach_NewIndex activated0 1 0 0 0 0 0 UpPath (1, None)); [| reflexivity].
  apply (reach_SetIndexActive confirmed0 0 None); [| reflexivity].
  apply (reach_SetIndexConfirmed created0 0 None); [| reflexivity].
  apply (reach_NewIndex (NewReservation 1) 0 0 0 0 0 0 UpPath (0, None)); [| reflexivity].
  apply reach_New.
Qed.

Lemma reachable_single_active_witness :
  reachable activeThenTemporary /\
  ((activeIndex activeThenTemporary = -1 \/ activeIndex activeThenTemporary = 0) /\
   atMostOneActive (Indices_ activeThenTemporary)).
Proof.
  split; [exact reachable_activeThenTemporary |].
  apply (reachable_single_active activeThenTemporary).
  exact reachable_activeThenTemporary.
Defined.



Lemma SetIndexActive_past_refused_witness :
  (0 < 1)%nat /\
  exists e, SetIndexActive 0 pendingThenActive = Value (Some e, pendingThenActive)
            /\ kind e = StateError.
Proof.
  split; [lia |].
  apply (SetIndexActive_past_refused pendingThenActive 0 0%nat 1%nat
           (sampleIndex 1 IndexActive)); [reflexivity | reflexivity | reflexivity | lia].
Defined.

(** C4 as stated fails on a reservation built by the mutators: the index
    after the active one is returned although it is temporary, where the
    first pending index after the active one does not exist. *)
Lemma NextIndexToActivate_returns_temporary :
  reachable activeThenTemporary /\
  firstPendingAfterActive activeThenTemporary = None /\
  exists ix, NextIndexToActivate activeThenTemporary = Some ix /\
             State ix = IndexTemporary /\
             NextIndexToActivate activeThenTemporary
               <> firstPendingAfterActive activeThenTemporary.
Proof.
  split; [exact reachable_activeThenTemporary |].
  split; [reflexivity |].
  eexists. split; [vm_compute; reflexivity |]. split; [reflexivity |].
  vm_compute. discriminate.
Qed.

Lemma NextIndexToActivate_position_witness :
  0 <= activeIndex activeThenTemporary /\
  NextIndexToActivate activeThenTemporary = Indices_ activeThenTemporary !! 1%nat.
Proof.
  split; [vm_compute; discriminate |].
  apply (NextIndexToActivate_position activeThenTemporary). vm_compute. discriminate.
Defined.

Lemma NextIndexToRenew_ring_witness :
  NextIndexToRenew (NewReservation 1) = 0 /\ NextIndexToRenew endOfRing = 0.
Proof.
  split.
  - apply (NextIndexToRenew_ring (NewReservation 1)). reflexivity.
  - apply (NextIndexToRenew_ring endOfRing) with (ix := sampleIndex 15 IndexPending);
      reflexivity.
Defined.

(** ** Matching reservations with configurations *)

Section Matching.
Context `{PathLib}.

Lemma drop_after_middle {A : Type} (pre : list A) c post :
  drop (S (length pre)) (pre ++ c :: post) = post.
Proof. induction pre as [| a pre IH]; simpl; auto. Qed.

(** The search returns -1 when nothing in the pool is compatible, and
    otherwise the position of the first compatible configuration. *)
Lemma findCompatibleFrom_spec r conf : forall i,
  0 <= i ->
  (findCompatibleFrom i r conf = -1 /\ Forall (fun c => compatible r c = false) conf) \/
  (exists pre c post,
      conf = pre ++ c :: post /\
      Forall (fun c' => compatible r c' = false) pre /\
      compatible r c = true /\
      findCompatibleFrom i r conf = i + Z.of_nat (length pre)).
Proof.
  induction conf as [| c conf IH]; intros i Hi; simpl.
  - left. split; [reflexivity | constructor].
  - destruct (compatible r c) eqn:Hc.
    + right. exists [], c, conf. simpl. repeat split; auto. lia.
    + destruct (IH (i + 1)) as [[Hnone Hall] | (pre & c' & post & -> & Hpre & Hc' & Hres)];
        [lia | |].
      * left. split; [exact Hnone | constructor; assumption].
      * right. exists (c :: pre), c', post. simpl.
        repeat split; auto. rewrite Hres. lia.
Qed.

Lemma greedy_permutation pool rsvs entries :
  greedy pool rsvs entries -> map conf entries ≡ₚ pool.
Proof.
  induction 1 as [pool | pool r rsvs entries _ _ IH
                  | pre c post r rsvs entries _ _ _ IH].
  - rewrite map_map. simpl. rewrite map_id. reflexivity.
  - exact IH.
  - simpl. rewrite IH. apply Permutation_middle.
Qed.

Lemma matchLoop_greedy rsvs : forall pool acc,
  exists entries pool',
    matchLoop rsvs pool acc = Value (acc ++ entries, pool') /\
    greedy pool rsvs (entries ++ map (fun c => mkEntry c None) pool').
Proof.
  induction rsvs as [| r rsvs IH]; intros pool acc; simpl.
  - exists [], pool. rewrite app_nil_r. split; [reflexivity | constructor].
  - unfold findCompatibleConfiguration.
    destruct (findCompatibleFrom_spec r pool 0) as
      [[-> Hall] | (pre & c & post & -> & Hpre & Hc & ->)]; [lia | |].
    + simpl. destruct (IH pool acc) as (entries & pool' & Hrun & Hg).
      exists entries, pool'. split; [exact Hrun |].
      apply greedy_drop; assumption.
    + destruct (Z.ltb_spec (0 + Z.of_nat (length pre)) 0) as [Hneg | _]; [lia |].
      replace (Z.to_nat (0 + Z.of_nat (length pre))) with (length pre) by lia.
      replace (Z.to_nat (0 + Z.of_nat (length pre) + 1)) with (S (length pre)) by lia.
      rewrite list_lookup_middle by reflexivity.
      rewrite take_app_length, drop_after_middle.
      destruct (IH (pre ++ post) (acc ++ [mkEntry c (Some r)]))
        as (entries & pool' & Hrun & Hg).
      exists (mkEntry c (Some r) :: entries), pool'.
      split.
      * rewrite Hrun. rewrite <- app_assoc. reflexivity.
      * simpl. apply greedy_claim; assumption.
Qed.

(** C5. [matchRsvsWithConfiguration] returns, for all inputs, exactly one
    entry per input configuration, each configuration in exactly one
    entry, and the entries are those of the greedy matching: the
    reservations in their order, each paired with the first compatible
    configuration still in the pool, the unclaimed configurations with
    no reservation. *)
Theorem matchRsvsWithConfiguration_greedy rsvs confs :
  exists entries,
    matchRsvsWithConfiguration rsvs confs = Value entries /\
    length entries = length confs /\
    map conf entries ≡ₚ confs /\
    greedy confs rsvs entries.
Proof.
  unfold matchRsvsWithConfiguration.
  destruct (matchLoop_greedy rsvs confs []) as (entries & pool' & Hrun & Hg).
  rewrite Hrun. simpl.
  exists (entries ++ map (fun c => mkEntry c None) pool').
  split; [reflexivity |].
  pose proof (greedy_permutation _ _ _ Hg) as Hperm.
  split; [| split; assumption].
  rewrite <- (length_map conf). apply Permutation_length. exact Hperm.
Qed.

End Matching.

(** ** The keeper's next wake-up *)

Lemma fold_right_min_shift (ts : list Time) : forall a b,
  fold_right Z.min (Z.min a b) ts = Z.min a (fold_right Z.min b ts).
Proof.
  induction ts as [| t ts IH]; intros a b; simpl; [reflexivity |].
  rewrite IH. lia.
Qed.

Lemma fold_left_earlier (ts : list Time) : forall init,
  fold_left (fun wakeup t => if Time_Before t wakeup then t else wakeup) ts init
  = fold_right Z.min init ts.
Proof.
  induction ts as [| t ts IH]; intros init; simpl; [reflexivity |].
  rewrite IH. unfold Time_Before.
  destruct (Z.ltb_spec t init).
  - replace t with (Z.min t init) at 1 by lia. apply fold_right_min_shift.
  - replace init with (Z.min t init) at 1 by lia. apply fold_right_min_shift.
Qed.

Lemma Time_Sub_below (t u : Time) (d : Duration) :
  minDurationValue < d <= maxDuration ->
  (Time_Sub t u <? d) = (t - u <? d).
Proof.
  intros Hd. unfold Time_Sub.
  destruct (Z.gtb_spec (t - u) maxDuration).
  - destruct (Z.ltb_spec maxDuration d), (Z.ltb_spec (t - u) d); lia.
  - destruct (Z.ltb_spec (t - u) minDurationValue); [| reflexivity].
    destruct (Z.ltb_spec minDurationValue d), (Z.ltb_spec (t - u) d); lia.
Qed.

Lemma omap_id_nil (errs : list (option error)) :
  omap id errs = [] <-> Forall (fun e => e = None) errs.
Proof.
  induction errs as [| [e |] errs IH]; simpl.
  - split; [constructor | reflexivity].
  - split; [discriminate | intros Hall; inversion Hall; discriminate].
  - rewrite IH. split; [intros Hall; constructor; auto |].
    intros Hall. inversion Hall; assumption.
Qed.

Lemma Coalesce_None errs :
  Coalesce errs = None <-> Forall (fun e => e = None) errs.
Proof.
  rewrite <- omap_id_nil. unfold Coalesce.
  destruct (omap id errs); split; congruence.
Qed.

Section NextWakeup.
Context `{PathLib} {M : Type} `{!Manager M}.

(** C6. With the manager's clock reading [now] throughout the call:
    when some per-entry task returned an error, [OneShot] returns
    [now + sleepAtLeast] together with the coalesced (non-empty) list
    of the errors; otherwise it returns no error and the minimum of the
    per-entry times clamped into [now + sleepAtLeast, now + sleepAtMost],
    which is [now + sleepAtMost] when there are no entries. Here
    [sleepAtLeast] is 4 seconds and [sleepAtMost] 5 minutes. *)
Theorem OneShot_wakeup (times : list Time) (errs : list (option error))
    (w : world) (now : Time) :
  (forall m, fst (Now m) = now) ->
  sleepAtLeast = 4 * Second /\ sleepAtMost = 5 * Minute /\
  ((exists e, Some e ∈ errs) ->
     exists l, l <> [] /\ (forall e, e ∈ l <-> Some e ∈ errs) /\
       fst (OneShot times errs w) = (now + sleepAtLeast, Some l)) /\
  (Forall (fun e => e = None) errs ->
     fst (OneShot times errs w) =
       (match earliest times with
        | Some t => clamp (now + sleepAtLeast) (now + sleepAtMost) t
        | None => now + sleepAtMost
        end, None)).
Proof.
  intros Hclock. split; [reflexivity |]. split; [reflexivity |].
  assert (Hcall : forall w', exists w'', callNow w' = (now, w'')).
  { intros w'. unfold callNow. specialize (Hclock (manager w')).
    destruct (Now (manager w')) as [t m]. simpl in Hclock. subst t. eauto. }
  split.
  - intros (e & He). unfold OneShot.
    destruct (Coalesce errs) as [l |] eqn:Hco.
    + exists l. unfold Coalesce in Hco.
      assert (Hl : omap id errs = l) by (destruct (omap id errs); congruence).
      split; [destruct (omap id errs); congruence |].
      split.
      * intros e'. rewrite <- Hl, list_elem_of_omap. split.
        -- intros (o & Ho & Hid). simpl in Hid. subst o. exact Ho.
        -- intros He'. exists (Some e'). split; [exact He' | reflexivity].
      * destruct (Hcall w) as (w1 & ->). reflexivity.
    + apply Coalesce_None in Hco. rewrite Forall_forall in Hco.
      apply Hco in He. discriminate.
  - intros Hall. apply Coalesce_None in Hall. unfold OneShot. rewrite Hall.
    destruct (Hcall w) as (w1 & ->).
    destruct (Hcall w1) as (w2 & ->).
    destruct (Hcall w2) as (w3 & Hw3).
    rewrite fold_left_earlier. unfold Time_Add.
    rewrite Time_Sub_below by (vm_compute; split; [reflexivity | discriminate]).
    rewrite Hw3.
    assert (Hmerge : fold_right Z.min (now + sleepAtMost) times =
              match earliest times with
              | Some t => Z.min (now + sleepAtMost) t
              | None => now + sleepAtMost
              end).
    { destruct times as [| t ts]; [reflexivity |]. simpl.
      rewrite <- fold_right_min_shift, Z.min_comm. symmetry.
      rewrite <- fold_right_min_shift. reflexivity. }
    assert (Hle : sleepAtLeast <= sleepAtMost) by (vm_compute; discriminate).
    rewrite Hmerge. unfold clamp.
    destruct (earliest times) as [t |];
      match goal with |- context [?a <? ?b] => destruct (Z.ltb_spec a b) end;
      simpl; f_equal; lia.
Qed.

End NextWakeup.

(** ** Asking for a new reservation *)

Section NewReservation.
Context `{PathLib} {M : Type} `{!Manager M}.

Lemma PrepareSetupRequest_preparedFor e now localAS p req :
  PrepareSetupRequest e now (now + newIndexMinDuration) localAS p = Value req ->
  preparedFor e now p req.
Proof.
  intros Hprep. split; [exists localAS; exact Hprep |].
  unfold PrepareSetupRequest in Hprep.
  destruct (StepsFromSnet p) as [steps | err]; [| discriminate].
  destruct (PathType_eqb _ _); injection Hprep as <-; split; reflexivity.
Qed.

Lemma refused_issued e now paths w reqs w' :
  refused e now paths w reqs w' ->
  issued w' = issued w ++ reqs /\ Forall2 (preparedFor e now) paths reqs.
Proof.
  induction 1 as [w | p paths w req err m reqs w' Hprep Hsetup _ [IHlog IHreqs]].
  - rewrite app_nil_r. split; [reflexivity | constructor].
  - split.
    + rewrite IHlog. simpl. rewrite <- app_assoc. reflexivity.
    + constructor; [| exact IHreqs].
      eapply PrepareSetupRequest_preparedFor. exact Hprep.
Qed.

Lemma tryPaths_refused e now paths w reqs w' :
  refused e now paths w reqs w' ->
  forall rest, tryPaths e now (paths ++ rest) w = tryPaths e now rest w'.
Proof.
  induction 1 as [w | p paths w req err m reqs w' Hprep Hsetup _ IH]; intros rest.
  - reflexivity.
  - simpl. unfold Time_Add. rewrite Hprep. simpl.
    unfold callSetupRequest. rewrite Hsetup. apply IH.
Qed.

(** C7. Let the clock read [now] and the router return [paths].
    [askNewReservation] walks the paths kept by the predicate in their
    order. If the requests for the paths [pre] are all refused and the
    request for the next path [p] leaves a reservation [r] in the
    request, the call returns [r] together with whatever error that
    request produced. If the requests for all paths are refused, the
    call returns no reservation and an error of kind NoPathError. In
    both cases the requests issued are, in order, one per path tried,
    each with index number 0 and expiration [now + newIndexMinDuration]. *)
Theorem askNewReservation_first_reservation (e : entry) (w : world)
    (now : Time) (paths : list snetPath) (m1 m2 : M) :
  Now (manager w) = (now, m1) ->
  PathsTo (dst (conf e)) m1 = ((paths, None), m2) ->
  (forall pre p post reqs w3 req err r m4,
      Eval (predicate (conf e)) paths = pre ++ p :: post ->
      refused e now pre (mkWorld m2 (issued w)) reqs w3 ->
      PrepareSetupRequest e now (now + newIndexMinDuration)
        (IA_AS (LocalIA (manager w3))) p = Value req ->
      SetupRequest req (manager w3) = ((err, Some r), m4) ->
      exists w4,
        askNewReservation e w = Value ((Some r, err), w4) /\
        manager w4 = m4 /\
        issued w4 = issued w ++ reqs ++ [req] /\
        Forall2 (preparedFor e now) (pre ++ [p]) (reqs ++ [req])) /\
  (forall reqs w3,
      refused e now (Eval (predicate (conf e)) paths) (mkWorld m2 (issued w)) reqs w3 ->
      exists err,
        askNewReservation e w = Value ((None, Some err), w3) /\
        kind err = NoPathError /\
        issued w3 = issued w ++ reqs /\
        Forall2 (preparedFor e now) (Eval (predicate (conf e)) paths) reqs).
Proof.
  intros Hnow Hpaths.
  assert (Hstart : askNewReservation e w =
            tryPaths e now (Eval (predicate (conf e)) paths) (mkWorld m2 (issued w))).
  { unfold askNewReservation, callNow, callPathsTo. rewrite Hnow. simpl.
    rewrite Hpaths. reflexivity. }
  split.
  - intros pre p post reqs w3 req err r m4 Hsplit Hrefused Hprep Hsetup.
    exists (mkWorld m4 (issued w3 ++ [req])).
    destruct (refused_issued _ _ _ _ _ _ Hrefused) as [Hlog Hreqs].
    split; [| split; [reflexivity | split]].
    + rewrite Hstart, Hsplit, (tryPaths_refused _ _ _ _ _ _ Hrefused).
      simpl. unfold Time_Add. rewrite Hprep. simpl.
      unfold callSetupRequest. rewrite Hsetup.
      destruct err; reflexivity.
    + simpl. rewrite Hlog. simpl. rewrite <- app_assoc. reflexivity.
    + apply Forall2_app; [exact Hreqs |].
      constructor; [| constructor].
      eapply PrepareSetupRequest_preparedFor. exact Hprep.
  - intros reqs w3 Hrefused. exists ErrNoMorePaths.
    destruct (refused_issued _ _ _ _ _ _ Hrefused) as [Hlog Hreqs].
    split; [| split; [reflexivity | split; assumption]].
    rewrite Hstart.
    rewrite <- (app_nil_r (Eval (predicate (conf e)) paths)).
    rewrite (tryPaths_refused _ _ _ _ _ _ Hrefused). reflexivity.
Qed.

End NewReservation.

(** ** Compliance *)

(** The cases of TestRequirementsCompliance in keeper_test.go. *)
Example compliance_one_index :
  compliance (testEntry [testIndex 0 tomorrow IndexActive 12 24] 0) 0 = Value Compliant.
Proof. reflexivity. Qed.

Example compliance_minbw :
  compliance (testEntry [testIndex 0 tomorrow IndexActive 1 24] 0) 0 = Value NeedsIndices.
Proof. reflexivity. Qed.

Example compliance_maxbw :
  compliance (testEntry [testIndex 0 tomorrow IndexActive 12 44] 0) 0 = Value NeedsIndices.
Proof. reflexivity. Qed.

Example compliance_expired :
  compliance (testEntry [testIndex 0 0 IndexActive 12 24] 0) 0 = Value NeedsIndices.
Proof. reflexivity. Qed.

Example compliance_no_active :
  compliance (testEntry [testIndex 0 tomorrow IndexPending 12 24] (-1)) 0
  = Value NeedsActivation.
Proof. reflexivity. Qed.

Example compliance_no_indices :
  compliance (testEntry [] (-1)) 0 = Value NeedsIndices.
Proof. reflexivity. Qed.

Example compliance_past :
  compliance (testEntry [testIndex 1 tomorrow IndexActive 1 24] 0) 0 = Value NeedsIndices.
Proof. reflexivity. Qed.

Lemma filter_nonempty {A : Type} (f : A -> bool) (l : list A) :
  (length (List.filter f l) =? 0)%nat = false <-> exists x, In x l /\ f x = true.
Proof.
  split.
  - intros Hlen. destruct (List.filter f l) as [| x rest] eqn:Hf; [discriminate |].
    exists x. apply filter_In. rewrite Hf. left. reflexivity.
  - intros (x & Hin & Hfx).
    assert (Hx : In x (List.filter f l)) by (apply filter_In; auto).
    destruct (List.filter f l); [destruct Hx | reflexivity].
  Qed.

Section ComplianceHorizon.
Context `{PathLib}.

Lemma ByExpiration_antitone ix until until' :
  until' <= until -> ByExpiration until ix = true -> ByExpiration until' ix = true.
Proof.
  unfold ByExpiration, Time_After. intros Hle Hu.
  apply Z.gtb_lt in Hu. apply Z.gtb_lt. lia.
Qed.

Lemma Filter_until_antitone c until until' l ix :
  until' <= until ->
  In ix (Filter [ByMinBW (minBW c); ByMaxBW (maxBW c); NotConfirmed;
                 ByExpiration until] l) ->
  In ix (Filter [ByMinBW (minBW c); ByMaxBW (maxBW c); NotConfirmed;
                 ByExpiration until'] l).
Proof.
  intros Hle. unfold Filter. rewrite !filter_In. simpl.
  intros [Hin Hpass]. split; [exact Hin |].
  rewrite !andb_true_iff in Hpass |- *.
  destruct Hpass as (Hmin & Hmax & Hconf & Hexp & _).
  repeat split; auto. eapply ByExpiration_antitone; eassumption.
Qed.

Lemma compliance_antitone e until until' :
  compliance e until = Value Compliant ->
  until' <= until ->
  compliance e until' = Value Compliant.
Proof.
  unfold compliance. destruct (rsv e) as [r |]; [| discriminate].
  intros Hc Hle.
  destruct (length (Filter _ (Indices_ r)) =? 0)%nat eqn:Hidxs in Hc; [discriminate |].
  destruct (ActiveIndex r) as [active |]; [| discriminate]. simpl in Hc |- *.
  destruct (length (Filter [NotSwitchableFrom active] _) =? 0)%nat eqn:Hkeep in Hc;
    [discriminate |].
  apply filter_nonempty in Hkeep as (ix & Hin & Hpass).
  assert (Hin' := Filter_until_antitone (conf e) _ _ _ _ Hle Hin).
  replace (length (Filter _ (Indices_ r)) =? 0)%nat with false.
  - replace (length (Filter [NotSwitchableFrom active] _) =? 0)%nat with false;
      [reflexivity |].
    symmetry. apply filter_nonempty. exists ix. split; assumption.
  - symmetry. apply filter_nonempty. exists ix.
    unfold Filter in Hin'. apply filter_In in Hin'. exact Hin'.
Qed.

(** C9, amended. If the evaluation at time [t], that is
    [compliance e (t + minDuration)], classifies the entry compliant,
    then, as long as no mutator runs, the entry is compliant against
    every horizon up to [t + minDuration]: [compliance e (t + delta)] is
    compliant for every [delta] from 0 to [minDuration]. *)
Theorem compliance_holds_until_horizon e t delta :
  compliance e (t + minDuration) = Value Compliant ->
  0 <= delta <= minDuration ->
  compliance e (t + delta) = Value Compliant.
Proof.
  intros Hc Hdelta. eapply compliance_antitone; [exact Hc | lia].
Qed.

End ComplianceHorizon.

(** C9 as stated fails: the evaluation at time 0 finds the entry
    compliant, the evaluation two nanoseconds later asks for new indices,
    and no mutator ran in between. *)
Lemma compliance_lost_within_window :
  compliance shortLived (0 + minDuration) = Value Compliant /\
  0 <= 2 < minDuration / 2 /\
  compliance shortLived (0 + 2 + minDuration) = Value NeedsIndices.
Proof. split; [reflexivity |]. split; [vm_compute; split; [discriminate | reflexivity] | reflexivity]. Qed.

Lemma compliance_holds_until_horizon_witness :
  compliance shortLived (0 + minDuration) = Value Compliant /\
  compliance shortLived (0 + 2) = Value Compliant.
Proof.
  split; [reflexivity |].
  apply (compliance_holds_until_horizon shortLived 0 2); [reflexivity |].
  vm_compute. split; discriminate.
Defined.

(** ** Rolling back an activation *)

Lemma setState_setState s1 s2 ix : setState s1 (setState s2 ix) = setState s1 ix.
Proof. reflexivity. Qed.

Section Rollback.
Context `{Base} `{PathLib} {M : Type} `{!Manager M}.

(** What [SetIndexInactive] does: with the active position at 0 it
    flips the head of the list to pending and clears the active
    position; otherwise nothing. No index is added. *)
Lemma SetIndexInactive_effect r r' :
  SetIndexInactive r = Value (tt, r') ->
  (activeIndex r = 0 /\
   Indices_ r' = alter (setState IndexPending) 0%nat (Indices_ r) /\
   activeIndex r' = -1) \/
  (activeIndex r <> 0 /\ r' = r).
Proof.
  unfold SetIndexInactive.
  destruct (Z.eqb_spec (activeIndex r) 0) as [Hzero | Hnz].
  - destruct (Indices_ r !! 0%nat); [| discriminate].
    intros [= <-]. left. repeat split. exact Hzero.
  - intros [= <-]. right. split; [exact Hnz | reflexivity].
Qed.

(** C10. [SetIndexInactive] only flips the index at position 0 back to
    pending and sets the active position to -1: the list keeps its
    length. So when [activateIndex] has activated the index at a
    position [p] other than 0 and the manager's activation request
    fails, the rollback leaves the suffix of the list from [p] with its
    head pending and no active index: the [p] indices pruned by the
    activation stay removed and the list differs from the one before
    the call. *)
Theorem activateIndex_rollback_keeps_pruned :
  (forall r r',
      SetIndexInactive r = Value (tt, r') ->
      length (Indices_ r') = length (Indices_ r) /\
      (forall i, (0 < i)%nat -> Indices_ r' !! i = Indices_ r !! i) /\
      (activeIndex r = 0 ->
         Indices_ r' = alter (setState IndexPending) 0%nat (Indices_ r) /\
         activeIndex r' = -1)) /\
  (forall r w now m1 next p err m2,
      Now (manager w) = (now, m1) ->
      NextIndexToActivate r = Some next ->
      FindIndex (Indices_ r) (Idx next) = inl p ->
      Indices_ r !! p = Some next ->
      State next = IndexPending \/ State next = IndexActive ->
      activeIndex r < Z.of_nat p ->
      p <> 0%nat ->
      ActivateRequest (NewRequest now (ID r) (Idx next) (Z.of_nat (length (Steps r))))
        (Steps r) (TransportPath_ r) (PathType_eqb (PathType_ r) DownPath) m1
        = (Some err, m2) ->
      exists r',
        activateIndex r w = Value ((Some err, r'), mkWorld m2 (issued w)) /\
        Indices_ r' = alter (setState IndexPending) 0%nat (drop p (Indices_ r)) /\
        activeIndex r' = -1 /\
        (length (Indices_ r') + p = length (Indices_ r))%nat /\
        Indices_ r' <> Indices_ r).
Proof.
  split.
  - intros r r' Hrun.
    apply SetIndexInactive_effect in Hrun as [(Hzero & -> & Hact) | (Hnz & ->)].
    + split; [apply length_alter |]. split; [| auto].
      intros i Hi. apply list_lookup_alter_ne. lia.
    + split; [reflexivity |]. split; [reflexivity | contradiction].
  - intros r w now m1 next p err m2 Hnow Hnext Hfind Hp Hst Hlt Hp0 Hrpc.
    pose proof (SetIndexActive_behind r (Idx next) p next Hfind Hp Hst Hlt) as Hact.
    assert (Hhead : drop p (Indices_ r) !! 0%nat = Some next)
      by (rewrite lookup_drop, Nat.add_0_r; exact Hp).
    eexists. split; [| split; [| split; [| split]]].
    + unfold activateIndex, callNow. rewrite Hnow, Hnext. simpl.
      rewrite Hact. simpl. unfold callActivateRequest. simpl.
      rewrite Hrpc. simpl. unfold SetIndexInactive. simpl.
      rewrite list_lookup_alter_eq, Hhead. simpl. reflexivity.
    + simpl. rewrite list_alter_alter_eq. apply list_alter_ext; [| reflexivity].
      intros ix _. apply setState_setState.
    + reflexivity.
    + simpl. rewrite !length_alter, length_drop.
      apply lookup_lt_Some in Hp. lia.
    + simpl. intros Heq. apply (f_equal length) in Heq.
      rewrite !length_alter, length_drop in Heq.
      apply lookup_lt_Some in Hp. lia.
Qed.

End Rollback.

(** ** The keeper on concrete inputs *)

(** The cases "both", "unordered" and "same_config" of
    TestMatchRsvsWithConfiguration in keeper_test.go. *)
Example match_both :
  matchRsvsWithConfiguration [splitRsv 1; splitRsv 2] [splitConf 1; splitConf 2]
  = Value [mkEntry (splitConf 1) (Some (splitRsv 1));
           mkEntry (splitConf 2) (Some (splitRsv 2))].
Proof. reflexivity. Qed.

Example match_unordered :
  matchRsvsWithConfiguration [splitRsv 1; splitRsv 2] [splitConf 2; splitConf 1]
  = Value [mkEntry (splitConf 1) (Some (splitRsv 1));
           mkEntry (splitConf 2) (Some (splitRsv 2))].
Proof. reflexivity. Qed.

Example match_same_config :
  matchRsvsWithConfiguration [splitRsv 1; splitRsv 2] [splitConf 1; splitConf 1]
  = Value [mkEntry (splitConf 1) (Some (splitRsv 1)); mkEntry (splitConf 1) None].
Proof. reflexivity. Qed.

Lemma OneShot_wakeup_witness :
  (forall m : unit, fst (Now m) = 10) /\
  fst (OneShot [] [] (mkWorld tt [])) = (10 + sleepAtMost, None) /\
  fst (OneShot [10 + Minute; 10 + Second] [None; None] (mkWorld tt []))
    = (10 + sleepAtLeast, None) /\
  exists l,
    fst (OneShot [zeroTime; 10 + Minute] [Some ErrNoMorePaths; None] (mkWorld tt []))
      = (10 + sleepAtLeast, Some l).
Proof.
  split; [intros []; reflexivity |].
  split; [| split].
  - apply (OneShot_wakeup [] [] (mkWorld tt []) 10);
      [intros []; reflexivity | constructor].
  - destruct (OneShot_wakeup [10 + Minute; 10 + Second] [None; None] (mkWorld tt []) 10)
      as (_ & _ & _ & Hok); [intros []; reflexivity |].
    rewrite Hok by (repeat constructor). reflexivity.
  - destruct (OneShot_wakeup [zeroTime; 10 + Minute] [Some ErrNoMorePaths; None]
                (mkWorld tt []) 10)
      as (_ & _ & Herr & _); [intros []; reflexivity |].
    destruct Herr as (l & _ & _ & Hres); [exists ErrNoMorePaths; constructor |].
    exists l. exact Hres.
Defined.

Lemma askNewReservation_first_reservation_witness :
  Eval (predicate (conf freshEntry)) (routerPaths setupScript) = [directA; directB] /\
  (exists w4,
      askNewReservation freshEntry (mkWorld setupScript [])
        = Value ((Some (testRsv [] (-1)), Some (ErrCollaborator 2)), w4) /\
      issued w4 = [requestAt5 directA; requestAt5 directB]) /\
  (exists err w3,
      askNewReservation freshEntry (mkWorld refusingScript [])
        = Value ((None, Some err), w3) /\
      kind err = NoPathError /\
      issued w3 = [requestAt5 directA; requestAt5 directB]).
Proof.
  split; [reflexivity |]. split.
  - destruct (askNewReservation_first_reservation freshEntry (mkWorld setupScript [])
                5 (routerPaths setupScript) setupScript setupScript)
      as [Hfirst _]; [reflexivity | reflexivity |].
    destruct (Hfirst [directA] directB [] [requestAt5 directA]
                (mkWorld (mkScript 5 [viaThree; directA; directB]
                            [(Some (ErrCollaborator 2), Some (testRsv [] (-1)))] None)
                   [requestAt5 directA])
                (requestAt5 directB) (Some (ErrCollaborator 2)) (testRsv [] (-1))
                (mkScript 5 [viaThree; directA; directB] [] None))
      as (w4 & Hrun & _ & Hlog & _).
    + reflexivity.
    + apply (refused_cons (M := script) freshEntry 5 directA [] (mkWorld setupScript [])
               (requestAt5 directA) (ErrCollaborator 1)
               (mkScript 5 [viaThree; directA; directB]
                  [(Some (ErrCollaborator 2), Some (testRsv [] (-1)))] None));
        [reflexivity | reflexivity | apply (refused_nil (M := script))].
    + reflexivity.
    + reflexivity.
    + exists w4. split; [exact Hrun | exact Hlog].
  - destruct (askNewReservation_first_reservation freshEntry (mkWorld refusingScript [])
                5 (routerPaths refusingScript) refusingScript refusingScript)
      as [_ Hnone]; [reflexivity | reflexivity |].
    destruct (Hnone [requestAt5 directA; requestAt5 directB]
                (mkWorld (mkScript 5 [viaThree; directA; directB] [] None)
                   [requestAt5 directA; requestAt5 directB]))
      as (err & Hrun & Hkind & Hlog & _).
    + apply (refused_cons (M := script) freshEntry 5 directA [directB]
               (mkWorld refusingScript []) (requestAt5 directA) (ErrCollaborator 1)
               (mkScript 5 [viaThree; directA; directB]
                  [(Some (ErrCollaborator 2), None)] None));
        [reflexivity | reflexivity |].
      apply (refused_cons (M := script) freshEntry 5 directB []
               (mkWorld (mkScript 5 [viaThree; directA; directB]
                           [(Some (ErrCollaborator 2), None)] None) [requestAt5 directA])
               (requestAt5 directB) (ErrCollaborator 2)
               (mkScript 5 [viaThree; directA; directB] [] None));
        [reflexivity | reflexivity | apply (refused_nil (M := script))].
    + exists err, (mkWorld (mkScript 5 [viaThree; directA; directB] [] None)
                     [requestAt5 directA; requestAt5 directB]).
      split; [exact Hrun | split; [exact Hkind | exact Hlog]].
Defined.

Lemma activateIndex_rollback_keeps_pruned_witness :
  NextIndexToActivate twoPending = Some (sampleIndex 1 IndexPending) /\
  exists r',
    activateIndex twoPending (mkWorld failingActivation [])
      = Value ((Some (ErrCollaborator 3), r'), mkWorld failingActivation []) /\
    Indices_ r' = [sampleIndex 1 IndexPending] /\
    activeIndex r' = -1 /\
    Indices_ r' <> Indices_ twoPending.
Proof.
  split; [reflexivity |].
  destruct (activateIndex_rollback_keeps_pruned (M := script)) as [_ Hroll].
  destruct (Hroll twoPending (mkWorld failingActivation []) 5 failingActivation
              (sampleIndex 1 IndexPending) 1%nat (ErrCollaborator 3) failingActivation)
    as (r' & Hrun & Hlist & Hact & _ & Hne);
    [reflexivity | reflexivity | reflexivity | reflexivity | left; reflexivity
    | vm_compute; reflexivity | discriminate | reflexivity |].
  exists r'. split; [exact Hrun |]. split; [exact Hlist |]. split; assumption.
Defined.


(** * Further properties of the reservation *)

Import segment_rest keeper_rest.

Section MutatorEffects.
Context `{Base}.

Lemma mutator_error_cases r r' e :
  (forall idx expTime minBW maxBW allocBW rlc pathType n,
      Reservation_NewIndex idx expTime minBW maxBW allocBW rlc pathType r
        = Value ((n, Some e), r') -> r' = r /\ n = 0) /\
  (forall idx, SetIndexConfirmed idx r = Value (Some e, r') -> r' = r) /\
  (forall idx, SetIndexActive idx r = Value (Some e, r') -> r' = r) /\
  (forall idx, RemoveIndex idx r = Value (Some e, r') -> r' = r).
Proof.
  split; [| split; [| split]].
  - intros idx expTime mn mx al rlc pt n.
    unfold Reservation_NewIndex, addIndex.
    destruct (ValidateIndices _); intros [= <- _ <-]; split; reflexivity.
  - intros idx. unfold SetIndexConfirmed.
    destruct (FindIndex _ _) as [s | err]; [| intros [= _ <-]; reflexivity].
    destruct (Indices_ r !! s); [| discriminate].
    destruct (IndexState_eqb _ _); [intros [= _ <-]; reflexivity | discriminate].
  - intros idx. unfold SetIndexActive.
    destruct (FindIndex _ _) as [s | err]; [| intros [= _ <-]; reflexivity].
    destruct (activeIndex r =? Z.of_nat s); [discriminate |].
    destruct (Indices_ r !! s); [| discriminate].
    destruct (negb _ && negb _); [intros [= _ <-]; reflexivity |].
    destruct ((activeIndex r >? -1) && _).
    + destruct (Indices_ r !! Z.to_nat (activeIndex r)); [| discriminate].
      intros [= _ <-]; reflexivity.
    + destruct (drop s (Indices_ r) !! 0%nat); discriminate.
  - intros idx. unfold RemoveIndex.
    destruct (FindIndex _ _) as [s | err]; [| intros [= _ <-]; reflexivity].
    destruct (length (Indices_ r) <? S s)%nat; [discriminate |].
    simpl. destruct (activeIndex r >? Z.of_nat s); discriminate.
Qed.

(** Every mutator that returns an error leaves the reservation as it
    was. *)
Theorem mutator_error_leaves_unchanged r r' e :
  (forall idx expTime minBW maxBW allocBW rlc pathType n,
      Reservation_NewIndex idx expTime minBW maxBW allocBW rlc pathType r
        = Value ((n, Some e), r') -> r' = r /\ n = 0) /\
  (forall idx, SetIndexConfirmed idx r = Value (Some e, r') -> r' = r) /\
  (forall idx, SetIndexActive idx r = Value (Some e, r') -> r' = r) /\
  (forall idx, RemoveIndex idx r = Value (Some e, r') -> r' = r).
Proof. exact (mutator_error_cases r r' e). Qed.

(** [NewIndex] always returns. When it succeeds it returns the number it
    was given, and the reservation has exactly one more index, at the
    end: temporary, with the number, expiration and bandwidth classes
    given and a token holding the same number, the tick of the
    expiration time and the allocated class; the list has passed
    [ValidateIndices]. The active position never changes. *)
Theorem NewIndex_appends_temporary idx expTime minBW maxBW allocBW rlc pathType r :
  exists n err r',
    Reservation_NewIndex idx expTime minBW maxBW allocBW rlc pathType r
      = Value ((n, err), r') /\
    activeIndex r' = activeIndex r /\
    (err = None ->
       n = idx /\
       ValidateIndices (Indices_ r') = None /\
       Indices_ r' = Indices_ r ++
         [mkIndex idx expTime IndexTemporary minBW maxBW allocBW
            (Some (mkToken (mkInfoField idx (TickFromTime expTime) allocBW rlc pathType) []))]).
Proof.
  unfold Reservation_NewIndex, addIndex, NewIndex.
  destruct (ValidateIndices _) as [err |] eqn:Hval.
  - eexists _, _, _. split; [reflexivity |]. split; [reflexivity | discriminate].
  - eexists _, _, _. split; [reflexivity |]. split; [reflexivity |].
    intros _. split; [reflexivity |]. split; [exact Hval | reflexivity].
Qed.

(** A successful [SetIndexConfirmed] changes one thing: the index the
    lookup resolves the number to, which was not active, is now pending.
    The active position stays. *)
Theorem SetIndexConfirmed_effect idx r r' :
  SetIndexConfirmed idx r = Value (None, r') ->
  exists p ix,
    FindIndex (Indices_ r) idx = inl p /\
    Indices_ r !! p = Some ix /\
    State ix <> IndexActive /\
    Indices_ r' = <[p := setState IndexPending ix]> (Indices_ r) /\
    activeIndex r' = activeIndex r.
Proof.
  unfold SetIndexConfirmed.
  destruct (FindIndex _ _) as [p | err]; [| discriminate].
  destruct (Indices_ r !! p) as [ix |] eqn:Hp; [| discriminate].
  destruct (IndexState_eqb (State ix) IndexActive) eqn:Hact; [discriminate |].
  intros [= <-]. exists p, ix. apply IndexState_eqb_neq in Hact.
  repeat split; auto. simpl.
  apply list_eq. intros i. destruct (decide (p = i)) as [<- | Hne].
  - rewrite list_lookup_alter_eq, Hp. simpl.
    rewrite list_lookup_insert_eq; [reflexivity |]. eapply lookup_lt_Some; eassumption.
  - rewrite list_lookup_alter_ne, list_lookup_insert_ne by done. reflexivity.
Qed.

Lemma mutators_content_suffix r r' :
  let content := map (setState IndexTemporary) in
  (forall idx err, SetIndexConfirmed idx r = Value (err, r') ->
     content (Indices_ r') = content (Indices_ r)) /\
  (forall idx err, SetIndexActive idx r = Value (err, r') ->
     exists n, content (Indices_ r') = drop n (content (Indices_ r))) /\
  (SetIndexInactive r = Value (tt, r') ->
     content (Indices_ r') = content (Indices_ r)) /\
  (forall idx err, RemoveIndex idx r = Value (err, r') ->
     exists n, content (Indices_ r') = drop n (content (Indices_ r))).
Proof.
  assert (Halter : forall s i (l : Indices),
            map (setState IndexTemporary) (alter (setState s) i l)
            = map (setState IndexTemporary) l).
  { intros s i l. revert i. induction l as [| ix l IH]; intros [| i]; simpl;
      try reflexivity; f_equal; apply IH. }
  simpl. split; [| split; [| split]].
  - intros idx err. unfold SetIndexConfirmed.
    destruct (FindIndex _ _) as [s | e]; [| intros [= _ <-]; reflexivity].
    destruct (Indices_ r !! s); [| discriminate].
    destruct (IndexState_eqb _ _); intros [= _ <-]; [reflexivity | apply Halter].
  - intros idx err. unfold SetIndexActive.
    destruct (FindIndex _ _) as [s | e]; [| intros [= _ <-]; exists 0%nat; reflexivity].
    destruct (activeIndex r =? Z.of_nat s); [intros [= _ <-]; exists 0%nat; reflexivity |].
    destruct (Indices_ r !! s); [| discriminate].
    destruct (negb _ && negb _); [intros [= _ <-]; exists 0%nat; reflexivity |].
    destruct ((activeIndex r >? -1) && _).
    + destruct (Indices_ r !! Z.to_nat (activeIndex r)); [| discriminate].
      intros [= _ <-]; exists 0%nat; reflexivity.
    + destruct (drop s (Indices_ r) !! 0%nat); [| discriminate].
      intros [= _ <-]. exists s. simpl. rewrite Halter. symmetry. apply skipn_map.
  - unfold SetIndexInactive. destruct (activeIndex r =? 0); [| intros [= <-]; reflexivity].
    destruct (Indices_ r !! 0%nat); [| discriminate].
    intros [= <-]. apply Halter.
  - intros idx err. unfold RemoveIndex.
    destruct (FindIndex _ _) as [s | e]; [| intros [= _ <-]; exists 0%nat; reflexivity].
    destruct (length (Indices_ r) <? S s)%nat; [discriminate |]. simpl.
    destruct (activeIndex r >? Z.of_nat s); intros [= _ <-]; exists (S s); symmetry; apply skipn_map.
Qed.

(** No mutator but [NewIndex] ever adds, reorders or rewrites an index:
    whatever it returns, the indices left, their state set aside, are a
    suffix of the indices before. *)
Theorem mutators_keep_a_suffix r r' :
  let content := map (setState IndexTemporary) in
  (forall idx err, SetIndexConfirmed idx r = Value (err, r') ->
     content (Indices_ r') = content (Indices_ r)) /\
  (forall idx err, SetIndexActive idx r = Value (err, r') ->
     exists n, content (Indices_ r') = drop n (content (Indices_ r))) /\
  (SetIndexInactive r = Value (tt, r') ->
     content (Indices_ r') = content (Indices_ r)) /\
  (forall idx err, RemoveIndex idx r = Value (err, r') ->
     exists n, content (Indices_ r') = drop n (content (Indices_ r))).
Proof. exact (mutators_content_suffix r r'). Qed.

Lemma RemoveIndex_success idx r r' :
  RemoveIndex idx r = Value (None, r') ->
  exists p,
    FindIndex (Indices_ r) idx = inl p /\
    (p < length (Indices_ r))%nat /\
    Indices_ r' = drop (S p) (Indices_ r) /\
    (Z.of_nat p < activeIndex r ->
       activeIndex r' = activeIndex r - (Z.of_nat p + 1) /\
       Indices_ r' !! Z.to_nat (activeIndex r') = Indices_ r !! Z.to_nat (activeIndex r)) /\
    (activeIndex r <= Z.of_nat p -> activeIndex r' = -1).
Proof.
  unfold RemoveIndex.
  destruct (FindIndex _ _) as [p | err]; [| discriminate].
  destruct (Nat.ltb_spec (length (Indices_ r)) (S p)) as [| Hlen]; [discriminate |].
  simpl. intros Hrun. exists p. split; [reflexivity |]. split; [lia |].
  destruct (Z.gtb_spec (activeIndex r) (Z.of_nat p)) as [Hgt | Hle];
    injection Hrun as <-; (split; [reflexivity |]); split; try lia; intros _.
  - split; [reflexivity |]. simpl. rewrite lookup_drop. f_equal. lia.
  - reflexivity.
Qed.

(** A successful [RemoveIndex] leaves the indices after the position [p]
    the lookup resolves the number to. An active index behind [p] stays
    the active index; otherwise no index is active any more. *)
Theorem RemoveIndex_effect idx r r' :
  RemoveIndex idx r = Value (None, r') ->
  exists p,
    FindIndex (Indices_ r) idx = inl p /\
    (p < length (Indices_ r))%nat /\
    Indices_ r' = drop (S p) (Indices_ r) /\
    (Z.of_nat p < activeIndex r ->
       activeIndex r' = activeIndex r - (Z.of_nat p + 1) /\
       Indices_ r' !! Z.to_nat (activeIndex r') = Indices_ r !! Z.to_nat (activeIndex r)) /\
    (activeIndex r <= Z.of_nat p -> activeIndex r' = -1).
Proof. exact (RemoveIndex_success idx r r'). Qed.

End MutatorEffects.

Section ReachableReservations.
Context `{Base}.

(** On a reservation built by the mutators, a successful [RemoveIndex]
    always removes the active index with the others: afterwards the
    active position is -1 and no index is in state active. *)
Theorem RemoveIndex_reachable_deactivates idx r r' :
  reachable r ->
  RemoveIndex idx r = Value (None, r') ->
  activeIndex r' = -1 /\ Forall (fun ix => State ix <> IndexActive) (Indices_ r').
Proof.
  intros Hreach Hrun.
  assert (Hinv' : activeAtFront r')
    by (eapply activeAtFront_RemoveIndex; [apply reachable_activeAtFront |]; eassumption).
  apply reachable_activeAtFront in Hreach as ([Hnone | Hzero] & _ & _);
    apply RemoveIndex_success in Hrun as (p & _ & _ & _ & _ & Hgone);
    (assert (Hact : activeIndex r' = -1) by (apply Hgone; lia));
    (split; [exact Hact |]);
    destruct Hinv' as (_ & _ & Hiff);
    apply Forall_lookup; intros i ix Hi Hstate;
    apply (Hiff i ix Hi) in Hstate; lia.
Qed.

Lemma ActiveIndex_cases r :
  reachable r ->
  ActiveIndex r = Value None \/
  (exists ix, ActiveIndex r = Value (Some ix) /\ Indices_ r !! 0%nat = Some ix).
Proof.
  intros Hreach. apply reachable_activeAtFront in Hreach as (Hrange & Hlen & _).
  unfold ActiveIndex. destruct Hrange as [-> | Hzero]; [left; reflexivity |].
  right. rewrite Hzero. simpl. change (Z.to_nat 0) with 0%nat.
  destruct (Indices_ r !! 0%nat) as [ix |] eqn:H0; [eauto |].
  apply lookup_ge_None in H0. lia.
Qed.

(** On a reservation built by the mutators [ActiveIndex] never panics. It
    returns nil exactly when no index is in state active; otherwise it
    returns the index at position 0, which is the one in state active. *)
Theorem ActiveIndex_reachable r :
  reachable r ->
  (ActiveIndex r = Value None /\
     Forall (fun ix => State ix <> IndexActive) (Indices_ r)) \/
  (exists ix, ActiveIndex r = Value (Some ix) /\
     Indices_ r !! 0%nat = Some ix /\ State ix = IndexActive).
Proof.
  intros Hreach. apply reachable_activeAtFront in Hreach as (Hrange & Hlen & Hiff).
  unfold ActiveIndex. destruct Hrange as [Hnone | Hzero].
  - left. rewrite Hnone. split; [reflexivity |].
    apply Forall_lookup. intros i ix Hi Hstate. apply (Hiff i ix Hi) in Hstate. lia.
  - right. rewrite Hzero. simpl. change (Z.to_nat 0) with 0%nat.
    destruct (Indices_ r !! 0%nat) as [ix |] eqn:H0.
    + exists ix. split; [reflexivity |]. split; [reflexivity |].
      apply (Hiff 0%nat ix H0). lia.
    + apply lookup_ge_None in H0. lia.
Qed.

(** Activation and rollback at the front is a round trip: when the index
    to activate is pending, sits at position 0 and no index is active,
    [SetIndexActive] followed by [SetIndexInactive] gives the reservation
    back as it was. *)
Theorem activate_then_inactivate_at_front k r ix :
  activeIndex r = -1 ->
  FindIndex (Indices_ r) k = inl 0%nat ->
  Indices_ r !! 0%nat = Some ix ->
  State ix = IndexPending ->
  exists r1,
    SetIndexActive k r = Value (None, r1) /\
    activeIndex r1 = 0 /\
    SetIndexInactive r1 = Value (tt, r).
Proof.
  intros Hnone Hfind H0 Hst.
  rewrite (SetIndexActive_behind r k 0%nat ix Hfind H0 (or_introl Hst)) by lia.
  eexists. split; [reflexivity |]. split; [reflexivity |].
  destruct r as [id l a pt pe ts st cs tp]. simpl in *. subst a.
  destruct l as [| ix' rest]; [discriminate |]. injection H0 as ->.
  unfold SetIndexInactive. simpl.
  destruct ix as [n ex state mn mx al tok]. simpl in Hst. subst state. reflexivity.
Qed.

End ReachableReservations.

(** The lookup of the specification returns a position of the list that
    holds the number looked up. *)
Lemma findFrom_sound l : forall pos k p,
  findFrom pos l k = inl p ->
  (pos <= p)%nat /\ exists ix, l !! (p - pos)%nat = Some ix /\ Idx ix = k.
Proof.
  induction l as [| ix rest IH]; intros pos k p Hfind; simpl in Hfind.
  - discriminate.
  - destruct (Z.eqb_spec (Idx ix) k) as [Heq | _].
    + injection Hfind as <-. split; [lia |].
      exists ix. rewrite Nat.sub_diag. split; [reflexivity | exact Heq].
    + apply IH in Hfind as (Hle & ix' & Hl & Hk). split; [lia |].
      exists ix'. split; [| exact Hk].
      replace (p - pos)%nat with (S (p - S pos)) by lia. exact Hl.
Qed.

(** Activating twice is activating once. With the lookup the
    specification describes (the first index carrying the number),
    whenever [SetIndexActive k] succeeds, a second [SetIndexActive k] on
    the reservation it leaves succeeds as well and changes nothing:
    the first call has put the index at position 0 and the active
    position on it, so the second finds it there. *)
Theorem SetIndexActive_twice k r r' :
  @SetIndexActive spec_base k r = Value (None, r') ->
  @SetIndexActive spec_base k r' = Value (None, r').
Proof.
  intros Hfirst. pose proof Hfirst as Hrun.
  unfold SetIndexActive in Hrun. simpl FindIndex in Hrun.
  destruct (findFrom 0 (Indices_ r) k) as [p | e] eqn:Hfind; [| discriminate].
  destruct (Z.eqb_spec (activeIndex r) (Z.of_nat p)) as [_ | _].
  { (* the guard of the first call: nothing has changed *)
    injection Hrun as <-. exact Hfirst. }
  apply findFrom_sound in Hfind as (_ & ixk & Hk & Hidx).
  rewrite Nat.sub_0_r in Hk. rewrite Hk in Hrun.
  destruct (negb _ && negb _); [discriminate |].
  destruct ((activeIndex r >? -1) && _).
  { destruct (Indices_ r !! Z.to_nat (activeIndex r)); discriminate. }
  destruct (drop p (Indices_ r)) as [| ix0 rest] eqn:Hdrop; [discriminate |].
  assert (Hix0 : ix0 = ixk).
  { pose proof (lookup_drop (Indices_ r) p 0) as Hl.
    rewrite Hdrop, Nat.add_0_r, Hk in Hl. simpl in Hl. congruence. }
  subst ix0. simpl in Hrun. injection Hrun as <-.
  unfold SetIndexActive. simpl.
  rewrite Hidx, Z.eqb_refl. reflexivity.
Qed.

(** ** Validation *)

Lemma singleActiveLoop_none whole l : forall i a,
  Forall (fun ix => State ix <> IndexActive) l ->
  singleActiveLoop whole i l a = Value None.
Proof.
  induction l as [| ix l IH]; intros i a Hall; simpl; [reflexivity |].
  inversion Hall as [| ? ? Hix Hrest]; subst.
  apply IndexState_eqb_neq in Hix. rewrite Hix. apply IH. exact Hrest.
Qed.

Lemma singleActiveLoop_sound whole l : forall i a,
  0 <= i ->
  singleActiveLoop whole i l a = Value None ->
  (a <> -1 -> Forall (fun ix => State ix <> IndexActive) l) /\
  atMostOneActive l.
Proof.
  induction l as [| ix l IH]; intros i a Hi Hrun; simpl in Hrun.
  - split; [intros _; constructor |]. intros p q ixp ixq Hp. rewrite lookup_nil in Hp. discriminate.
  - destruct (IndexState_eqb (State ix) IndexActive) eqn:Hact.
    + destruct (Z.eqb_spec a (-1)) as [-> | Hne]; simpl in Hrun.
      * apply IH in Hrun as [Hnone _]; [| lia].
        assert (Hrest : Forall (fun ix => State ix <> IndexActive) l) by (apply Hnone; lia).
        split; [intros Hneq; contradiction |].
        rewrite Forall_lookup in Hrest.
        intros [| p] [| q] ixp ixq Hp Hq Hsp Hsq; simpl in Hp, Hq.
        -- reflexivity.
        -- exfalso. exact (Hrest _ _ Hq Hsq).
        -- exfalso. exact (Hrest _ _ Hp Hsp).
        -- exfalso. exact (Hrest _ _ Hp Hsp).
      * destruct (whole !! Z.to_nat a); discriminate.
    + apply IndexState_eqb_neq in Hact.
      apply IH in Hrun as [Hnone Hone]; [| lia].
      split.
      * intros Hne. constructor; [exact Hact | apply Hnone; exact Hne].
      * intros [| p] [| q] ixp ixq Hp Hq Hsp Hsq; simpl in Hp, Hq.
        -- reflexivity.
        -- injection Hp as <-. contradiction.
        -- injection Hq as <-. contradiction.
        -- f_equal. eapply Hone; eassumption.
Qed.

Section ValidationFacts.
Context `{Base} `{PathChecks}.

(** A reservation that [Validate] accepts has its ID set, indices that
    pass [ValidateIndices], the active position at -1 or 0 and inside the
    list, at most one index in state active, at least two steps of which
    the first has ingress 0 and the last egress 0, a current step whose
    interfaces are those of the data-plane path, and valid path-end
    properties. *)
Theorem Validate_accepts_only_valid r :
  Validate (Some r) = Value None ->
  ASID (ID r) <> 0 /\
  ValidateIndices (Indices_ r) = None /\
  (activeIndex r = -1 \/ activeIndex r = 0) /\
  activeIndex r < Z.of_nat (length (Indices_ r)) /\
  atMostOneActive (Indices_ r) /\
  (2 <= length (Steps r))%nat /\
  (exists first, Steps r !! 0%nat = Some first /\ Ingress first = 0) /\
  (exists final, last (Steps r) = Some final /\ Egress final = 0) /\
  (exists st, currentStep r = Value st /\
     InEgFromDataplanePath (TransportPath_ r) = (Ingress st, Egress st)) /\
  PathEndProps_Validate (PathEndProps_ r) = None.
Proof.
  unfold Validate.
  destruct (Z.eqb_spec (ASID (ID r)) 0) as [| Hasid]; [discriminate |].
  destruct (ValidateIndices (Indices_ r)) eqn:Hval; [discriminate |].
  destruct (Z.ltb_spec (activeIndex r) (-1)) as [| Hlow]; [discriminate |].
  destruct (Z.gtb_spec (activeIndex r) 0) as [| Hhigh]; [discriminate |].
  destruct (Z.geb_spec (activeIndex r) (Z.of_nat (length (Indices_ r)))) as [| Hlen];
    [discriminate |].
  simpl.
  destruct (singleActiveLoop _ _ _ _) as [[verr |] |] eqn:Hloop; try discriminate.
  simpl.
  destruct (Nat.ltb_spec (length (Steps r)) 2) as [| Hsteps]; [discriminate |].
  destruct (Steps r !! 0%nat) as [first |] eqn:Hfirst; [| discriminate].
  destruct (Steps r !! (length (Steps r) - 1)%nat) as [final |] eqn:Hfinal; [| discriminate].
  destruct (Z.eqb_spec (Ingress first) 0) as [Hin |]; [| discriminate].
  destruct (Z.eqb_spec (Egress final) 0) as [Heg |]; [| discriminate].
  simpl.
  destruct (InEgFromDataplanePath (TransportPath_ r)) as [ing eg] eqn:Hineg.
  destruct (currentStep r) as [st |]; [| discriminate]. simpl.
  destruct (Z.eqb_spec ing (Ingress st)) as [-> |]; [| discriminate].
  destruct (Z.eqb_spec eg (Egress st)) as [-> |]; [| discriminate].
  simpl.
  destruct (PathEndProps_Validate (PathEndProps_ r)) eqn:Hprops; [discriminate |].
  intros _.
  apply singleActiveLoop_sound in Hloop as [_ Hone]; [| lia].
  repeat split; try assumption; try lia; eauto.
  exists final. split; [| exact Heg]. rewrite last_lookup.
  rewrite <- Hfinal. f_equal. lia.
Qed.

(** On a reservation built by the mutators, [Validate] never reports an
    invalid active index or more than one active index. *)
Theorem Validate_reachable_active_checks r verr :
  reachable r ->
  Validate (Some r) = Value (Some verr) ->
  (forall a, verr <> ErrInvalidActiveIndex a) /\
  (forall first another, verr <> ErrMoreThanOneActive first another).
Proof.
  intros Hreach. apply reachable_activeAtFront in Hreach as (Hrange & Hlen & Hiff).
  assert (Hloop : singleActiveLoop (Indices_ r) 0 (Indices_ r) (-1) = Value None).
  { destruct (Indices_ r) as [| ix l] eqn:Hl; [reflexivity |].
    assert (Hrest : Forall (fun ix => State ix <> IndexActive) l).
    { apply Forall_lookup. intros i ix' Hi Hstate.
      apply (Hiff (S i) ix' Hi) in Hstate. lia. }
    simpl. destruct (IndexState_eqb (State ix) IndexActive);
      simpl; apply singleActiveLoop_none; exact Hrest. }
  unfold Validate.
  destruct (ASID (ID r) =? 0); [intros [= <-]; split; discriminate |].
  destruct (ValidateIndices (Indices_ r)); [intros [= <-]; split; discriminate |].
  destruct (Z.ltb_spec (activeIndex r) (-1)); [lia |].
  destruct (Z.gtb_spec (activeIndex r) 0); [lia |].
  destruct (Z.geb_spec (activeIndex r) (Z.of_nat (length (Indices_ r)))); [lia |].
  simpl. rewrite Hloop. simpl.
  destruct (length (Steps r) <? 2)%nat; [intros [= <-]; split; discriminate |].
  destruct (Steps r !! 0%nat) as [first |]; [| discriminate].
  destruct (Steps r !! (length (Steps r) - 1)%nat) as [final |]; [| discriminate].
  destruct (negb (Ingress first =? 0)); [intros [= <-]; split; discriminate |].
  destruct (negb (Egress final =? 0)); [intros [= <-]; split; discriminate |].
  destruct (InEgFromDataplanePath (TransportPath_ r)) as [ing eg].
  destruct (currentStep r) as [st |]; [| discriminate]. simpl.
  destruct (negb (ing =? Ingress st) || negb (eg =? Egress st));
    [intros [= <-]; split; discriminate |].
  destruct (PathEndProps_Validate (PathEndProps_ r));
    [intros [= <-]; split; discriminate | discriminate].
Qed.

End ValidationFacts.

(** ** Blocked and requested bandwidth *)

Lemma fold_MaxBWCls_max {A : Type} (f : A -> BWCls) (l : list A) : forall init,
  fold_left (fun max x => MaxBWCls max (f x)) l init
  = fold_right (fun x acc => Z.max (f x) acc) init l.
Proof.
  assert (Hshift : forall (l : list A) a b,
            fold_right (fun x acc => Z.max (f x) acc) (Z.max a b) l
            = Z.max a (fold_right (fun x acc => Z.max (f x) acc) b l)).
  { intros l'. induction l' as [| x l' IH]; intros a b; simpl; [reflexivity |].
    rewrite IH. lia. }
  induction l as [| x l IH]; intros init; simpl; [reflexivity |].
  rewrite IH. unfold MaxBWCls.
  destruct (Z.ltb_spec init (f x)).
  - replace (f x) with (Z.max (f x) init) at 1 by lia. apply Hshift.
  - replace init with (Z.max (f x) init) at 1 by lia. apply Hshift.
Qed.

Lemma fold_right_max_bounds {A : Type} (f : A -> Z) (l : list A) :
  0 <= fold_right (fun x acc => Z.max (f x) acc) 0 l /\
  (forall x, In x l -> f x <= fold_right (fun x acc => Z.max (f x) acc) 0 l) /\
  (Forall (fun x => 0 <= f x) l -> l <> [] ->
     exists x, In x l /\ fold_right (fun x acc => Z.max (f x) acc) 0 l = f x).
Proof.
  induction l as [| y l (IHpos & IHle & IHex)]; simpl.
  - split; [lia |]. split; [intros x [] |]. intros _ Hne. contradiction.
  - split; [lia |]. split.
    + intros x [<- | Hin]; [lia |]. specialize (IHle x Hin). lia.
    + intros Hall _. inversion Hall as [| ? ? Hy Hrest]; subst.
      destruct l as [| z l'].
      * exists y. split; [left; reflexivity |]. simpl. lia.
      * destruct (IHex Hrest) as (x & Hin & Hx); [discriminate |].
        destruct (Z.max_spec (f y) (fold_right (fun x acc => Z.max (f x) acc) 0 (z :: l')))
          as [[_ Hmax] | [_ Hmax]]; rewrite Hmax.
        -- exists x. split; [right; exact Hin | exact Hx].
        -- exists y. split; [left; reflexivity | reflexivity].
Qed.

Section BandwidthFacts.
Context `{Bandwidth}.

(** With a conversion to kbps that is monotone, [MaxBlockedBW] is an upper
    bound of the allocated bandwidth of every index, and on a non-empty
    list (of classes that are not negative) it is the allocated bandwidth
    of one of the indices. It is 0 for a reservation without indices. *)
Theorem MaxBlockedBW_is_maximum r :
  (forall a b, a <= b -> ToKbps a <= ToKbps b) ->
  (Indices_ r = [] -> MaxBlockedBW r = 0) /\
  (forall ix, In ix (Indices_ r) -> ToKbps (AllocBW ix) <= MaxBlockedBW r) /\
  (Indices_ r <> [] -> Forall (fun ix => 0 <= AllocBW ix) (Indices_ r) ->
     exists ix, In ix (Indices_ r) /\ MaxBlockedBW r = ToKbps (AllocBW ix)).
Proof.
  intros Hmono. unfold MaxBlockedBW. rewrite fold_MaxBWCls_max.
  destruct (fold_right_max_bounds AllocBW (Indices_ r)) as (_ & Hle & Hex).
  split; [intros ->; reflexivity |]. split.
  - intros ix Hin. destruct (Indices_ r) as [| y l]; [destruct Hin |].
    simpl length. simpl Nat.eqb. cbv iota. apply Hmono. apply Hle. exact Hin.
  - intros Hne Hall. destruct (Hex Hall Hne) as (ix & Hin & Hmax).
    exists ix. split; [exact Hin |].
    destruct (Indices_ r) as [| y l]; [contradiction |].
    simpl length. simpl Nat.eqb. cbv iota. rewrite Hmax. reflexivity.
Qed.

(** When every index allocates at most what it requests, the bandwidth a
    reservation blocks is at most the bandwidth it requests (for a
    monotone conversion to kbps). *)
Theorem MaxBlockedBW_le_MaxRequestedBW r :
  (forall a b, a <= b -> ToKbps a <= ToKbps b) ->
  Forall (fun ix => AllocBW ix <= MaxBW ix) (Indices_ r) ->
  MaxBlockedBW r <= MaxRequestedBW r.
Proof.
  intros Hmono Hall. unfold MaxBlockedBW, MaxRequestedBW.
  destruct (length (Indices_ r) =? 0)%nat; [lia |].
  apply Hmono. rewrite !fold_MaxBWCls_max.
  induction Hall as [| ix l Hix _ IH]; simpl; lia.
Qed.

End BandwidthFacts.

(** ** The data-plane path *)

Lemma reversedHopFields_from (hfs : list HopField) : forall k a,
  (a + k = length hfs)%nat ->
  foldr (fun i acc =>
           rest ← acc;
           match hfs !! (length hfs - i - 1)%nat with
           | Some hf => Value (toColibriHopField hf :: rest)
           | None => Panic
           end)
        (Value []) (seq a k)
  = Value (map toColibriHopField (rev (take k hfs))).
Proof.
  induction k as [| k IH]; intros a Hlen; [reflexivity |].
  simpl seq. simpl foldr. rewrite IH by lia. simpl.
  destruct (hfs !! (length hfs - a - 1)%nat) as [hf |] eqn:Hhf.
  - replace (length hfs - a - 1)%nat with k in Hhf by lia.
    rewrite (take_S_r _ _ _ Hhf), rev_app_distr. reflexivity.
  - apply lookup_ge_None in Hhf. lia.
Qed.

Lemma reversedHopFields_is_rev hfs :
  reversedHopFields hfs = Value (rev (map toColibriHopField hfs)).
Proof.
  unfold reversedHopFields. rewrite (reversedHopFields_from hfs (length hfs) 0) by lia.
  rewrite firstn_all, map_rev. reflexivity.
Qed.

Lemma NewIndex_appended `{Base} idx expTime minBW maxBW allocBW rlc pathType r n err r' :
  Reservation_NewIndex idx expTime minBW maxBW allocBW rlc pathType r = Value ((n, err), r') ->
  Indices_ r' = Indices_ r \/
  Indices_ r' = Indices_ r ++
    [mkIndex idx expTime IndexTemporary minBW maxBW allocBW
       (Some (mkToken (mkInfoField idx (TickFromTime expTime) allocBW rlc pathType) []))].
Proof.
  unfold Reservation_NewIndex, addIndex, NewIndex.
  destruct (ValidateIndices _); intros [= _ _ <-]; [left | right]; reflexivity.
Qed.

Section DerivedPath.
Context `{Base}.

Lemma mutator_frame r r' :
  (forall idx expTime minBW maxBW allocBW rlc pathType res,
      Reservation_NewIndex idx expTime minBW maxBW allocBW rlc pathType r = Value (res, r') ->
      r' = withActiveIndex (activeIndex r') (withIndices (Indices_ r') r)) /\
  (forall idx err, SetIndexConfirmed idx r = Value (err, r') ->
      r' = withActiveIndex (activeIndex r') (withIndices (Indices_ r') r)) /\
  (forall idx err, SetIndexActive idx r = Value (err, r') ->
      r' = withActiveIndex (activeIndex r') (withIndices (Indices_ r') r)) /\
  (SetIndexInactive r = Value (tt, r') ->
      r' = withActiveIndex (activeIndex r') (withIndices (Indices_ r') r)) /\
  (forall idx err, RemoveIndex idx r = Value (err, r') ->
      r' = withActiveIndex (activeIndex r') (withIndices (Indices_ r') r)).
Proof.
  assert (Hsame : r = withActiveIndex (activeIndex r) (withIndices (Indices_ r) r))
    by (destruct r; reflexivity).
  split; [| split; [| split; [| split]]].
  - intros idx expTime mn mx al rlc pt res.
    unfold Reservation_NewIndex, addIndex.
    destruct (ValidateIndices _); intros [= _ <-]; [exact Hsame | reflexivity].
  - intros idx err. unfold SetIndexConfirmed.
    destruct (FindIndex _ _) as [s | e]; [| intros [= _ <-]; exact Hsame].
    destruct (Indices_ r !! s); [| discriminate].
    destruct (IndexState_eqb _ _); intros [= _ <-]; [exact Hsame | reflexivity].
  - intros idx err. unfold SetIndexActive.
    destruct (FindIndex _ _) as [s | e]; [| intros [= _ <-]; exact Hsame].
    destruct (activeIndex r =? Z.of_nat s); [intros [= _ <-]; exact Hsame |].
    destruct (Indices_ r !! s); [| discriminate].
    destruct (negb _ && negb _); [intros [= _ <-]; exact Hsame |].
    destruct ((activeIndex r >? -1) && _).
    + destruct (Indices_ r !! Z.to_nat (activeIndex r)); [| discriminate].
      intros [= _ <-]; exact Hsame.
    + destruct (drop s (Indices_ r) !! 0%nat); [| discriminate].
      intros [= _ <-]. reflexivity.
  - unfold SetIndexInactive. destruct (activeIndex r =? 0); [| intros [= <-]; exact Hsame].
    destruct (Indices_ r !! 0%nat); [| discriminate].
    intros [= <-]. reflexivity.
  - intros idx err. unfold RemoveIndex.
    destruct (FindIndex _ _) as [s | e]; [| intros [= _ <-]; exact Hsame].
    destruct (length (Indices_ r) <? S s)%nat; [discriminate |]. simpl.
    destruct (activeIndex r >? Z.of_nat s); intros [= _ <-]; reflexivity.
Qed.

(** The mutators only ever write the index list and the active position:
    ID, path type, path-end properties, traffic split, steps, current
    step and transport path are those of the reservation before the
    call, whatever the call returns. *)
Theorem mutators_touch_only_indices r r' :
  (forall idx expTime minBW maxBW allocBW rlc pathType res,
      Reservation_NewIndex idx expTime minBW maxBW allocBW rlc pathType r = Value (res, r') ->
      r' = withActiveIndex (activeIndex r') (withIndices (Indices_ r') r)) /\
  (forall idx err, SetIndexConfirmed idx r = Value (err, r') ->
      r' = withActiveIndex (activeIndex r') (withIndices (Indices_ r') r)) /\
  (forall idx err, SetIndexActive idx r = Value (err, r') ->
      r' = withActiveIndex (activeIndex r') (withIndices (Indices_ r') r)) /\
  (SetIndexInactive r = Value (tt, r') ->
      r' = withActiveIndex (activeIndex r') (withIndices (Indices_ r') r)) /\
  (forall idx err, RemoveIndex idx r = Value (err, r') ->
      r' = withActiveIndex (activeIndex r') (withIndices (Indices_ r') r)).
Proof. exact (mutator_frame r r'). Qed.

Lemma tokenMatches_setState s ix : tokenMatches (setState s ix) <-> tokenMatches ix.
Proof. unfold tokenMatches. destruct ix; simpl. reflexivity. Qed.

Lemma tokenMatches_suffix (l l' : Indices) n :
  map (setState IndexTemporary) l' = drop n (map (setState IndexTemporary) l) ->
  Forall tokenMatches l -> Forall tokenMatches l'.
Proof.
  intros Heq Hall.
  assert (Hmapped : Forall tokenMatches (map (setState IndexTemporary) l')).
  { rewrite Heq. apply Forall_drop. apply Forall_forall. intros x Hx.
    apply list_elem_of_In, in_map_iff in Hx as (ix & <- & Hin).
    apply (proj2 (tokenMatches_setState IndexTemporary ix)). rewrite Forall_forall in Hall.
    apply Hall. apply list_elem_of_In. exact Hin. }
  apply Forall_forall. intros ix Hin. rewrite Forall_forall in Hmapped.
  apply (proj1 (tokenMatches_setState IndexTemporary ix)). apply Hmapped.
  apply list_elem_of_In, in_map. apply list_elem_of_In. exact Hin.
Qed.

Lemma reachable_tokens r :
  reachable r ->
  Forall tokenMatches (Indices_ r) /\ length (Suffix (ID r)) = IDSuffixSegLen.
Proof.
  induction 1 as [asid | r idx expTime mn mx al rlc pt res r' _ [IHtok IHid] Hstep
                  | r idx err r' _ [IHtok IHid] Hstep | r idx err r' _ [IHtok IHid] Hstep
                  | r r' _ [IHtok IHid] Hstep | r idx err r' _ [IHtok IHid] Hstep].
  - split; [constructor | reflexivity].
  - split.
    + destruct res as [n err].
      destruct (NewIndex_appended idx expTime mn mx al rlc pt r n err r' Hstep)
        as [-> | ->]; [exact IHtok |].
      apply Forall_app. split; [exact IHtok |]. constructor; [| constructor].
      eexists. split; [reflexivity |]. repeat split.
    + destruct (mutator_frame r r') as (Hf & _). rewrite (Hf _ _ _ _ _ _ _ _ Hstep). exact IHid.
  - destruct (mutators_content_suffix r r') as (Hs & _).
    destruct (mutator_frame r r') as (_ & Hf & _).
    split; [| rewrite (Hf _ _ Hstep); exact IHid].
    apply (tokenMatches_suffix (Indices_ r) _ 0); [| exact IHtok].
    rewrite drop_0. exact (Hs _ _ Hstep).
  - destruct (mutators_content_suffix r r') as (_ & Hs & _).
    destruct (mutator_frame r r') as (_ & _ & Hf & _).
    split; [| rewrite (Hf _ _ Hstep); exact IHid].
    destruct (Hs _ _ Hstep) as (n & Hn).
    apply (tokenMatches_suffix (Indices_ r) _ n); assumption.
  - destruct (mutators_content_suffix r r') as (_ & _ & Hs & _).
    destruct (mutator_frame r r') as (_ & _ & _ & Hf & _).
    split; [| rewrite (Hf Hstep); exact IHid].
    apply (tokenMatches_suffix (Indices_ r) _ 0); [| exact IHtok].
    rewrite drop_0. exact (Hs Hstep).
  - destruct (mutators_content_suffix r r') as (_ & _ & _ & Hs).
    destruct (mutator_frame r r') as (_ & _ & _ & _ & Hf).
    split; [| rewrite (Hf _ _ Hstep); exact IHid].
    destruct (Hs _ _ Hstep) as (n & Hn).
    apply (tokenMatches_suffix (Indices_ r) _ n); assumption.
Qed.

End DerivedPath.

Section DerivedInfoField.
Context `{Base}.

(** On a reservation built by the mutators [deriveInfoField] never
    panics. It is nil exactly when there is no active index; otherwise it
    carries the number of the index at position 0, which is the active
    one, the tick of its expiration time and its allocated class, and a
    reservation-ID suffix of exactly [LenSuffix] (12) bytes that starts
    with the suffix of the reservation ID. *)
Theorem deriveInfoField_reachable r :
  reachable r ->
  (activeIndex r = -1 /\ deriveInfoField r = Value None) \/
  (exists ix info,
      Indices_ r !! 0%nat = Some ix /\ State ix = IndexActive /\
      deriveInfoField r = Value (Some info) /\
      cif_Ver info = uint8 (Idx ix) /\
      cif_ExpTick info = uint32 (TickFromTime (Expiration ix)) /\
      cif_BwCls info = uint8 (AllocBW ix) /\
      length (cif_ResIdSuffix info) = LenSuffix /\
      take IDSuffixSegLen (cif_ResIdSuffix info) = Suffix (ID r)).
Proof.
  intros Hreach.
  destruct (reachable_tokens r Hreach) as [Htok Hid].
  apply reachable_activeAtFront in Hreach as (Hrange & Hlen & Hiff).
  unfold deriveInfoField, ActiveIndex. destruct Hrange as [Hnone | Hzero].
  - left. rewrite Hnone. split; reflexivity.
  - right. rewrite Hzero. simpl. change (Z.to_nat 0) with 0%nat.
    destruct (Indices_ r !! 0%nat) as [ix |] eqn:H0;
      [| apply lookup_ge_None in H0; lia].
    rewrite Forall_lookup in Htok.
    destruct (Htok 0%nat ix H0) as (tok & Htoken & _ & Htick & _).
    simpl. rewrite Htoken. eexists ix, _.
    split; [reflexivity |]. split; [apply (Hiff 0%nat ix H0); lia |].
    split; [reflexivity |]. simpl. rewrite Htick.
    repeat split.
    + rewrite length_app, Hid. reflexivity.
    + rewrite <- Hid. apply take_app_length.
Qed.

End DerivedInfoField.

Section DerivedColibriPath.
Context `{ColibriCodec}.

(** [DeriveColibriPath] is nil when there is no active index. With an
    active index that has a token it does not panic: for a down-path
    reservation the codec is handed the hop fields of the token in
    reverse order and then asked to reverse the path; for the other path
    types it is handed the hop fields in the order of the token. An
    error of the codec yields nil. *)
Theorem DeriveColibriPath_hop_order r :
  (ActiveIndex r = Value None -> DeriveColibriPath r = Value None) /\
  (forall ix tok,
      ActiveIndex r = Value (Some ix) ->
      Token ix = Some tok ->
      let hops := map toColibriHopField (tok_HopFields tok) in
      exists info,
        deriveInfoField r = Value (Some info) /\
        DeriveColibriPath r =
          Value
            (if PathType_eqb (PathType_ r) DownPath then
               match ReversePath (mkColibriPath (Some info) (rev hops)) with
               | inl p => match ToMinimal p with inl min => Some min | inr _ => None end
               | inr _ => None
               end
             else
               match ToMinimal (mkColibriPath (Some info) hops) with
               | inl min => Some min
               | inr _ => None
               end)).
Proof.
  unfold DeriveColibriPath, deriveColibriPathAtDestination, deriveColibriPathAtSource,
    deriveInfoField.
  split.
  - intros ->. simpl. destruct (PathType_eqb _ _); reflexivity.
  - intros ix tok -> Htok. simpl. rewrite Htok. simpl.
    eexists. split; [reflexivity |].
    rewrite reversedHopFields_is_rev. simpl.
    destruct (PathType_eqb _ _).
    + destruct (ReversePath _) as [p |]; [| reflexivity].
      destruct (ToMinimal p); reflexivity.
    + destruct (ToMinimal _); reflexivity.
Qed.

End DerivedColibriPath.

(** * Further properties of the keeper *)

Section MatchingFacts.
Context `{PathLib}.

(** [findCompatibleConfiguration] returns -1 exactly when no
    configuration is compatible with the reservation; otherwise it
    returns a position inside the slice, the configuration there is
    compatible and no configuration before it is. *)
Theorem findCompatibleConfiguration_first r confs :
  (findCompatibleConfiguration r confs = -1 /\
     Forall (fun c => compatible r c = false) confs) \/
  (exists i c,
      findCompatibleConfiguration r confs = Z.of_nat i /\
      confs !! i = Some c /\
      compatible r c = true /\
      Forall (fun c' => compatible r c' = false) (take i confs)).
Proof.
  unfold findCompatibleConfiguration.
  destruct (findCompatibleFrom_spec r confs 0) as
    [Hnone | (pre & c & post & -> & Hpre & Hc & Hres)]; [lia | left; exact Hnone |].
  right. exists (length pre), c. rewrite Hres.
  split; [lia |]. split; [apply list_lookup_middle; reflexivity |].
  split; [exact Hc |]. rewrite take_app_length. exact Hpre.
Qed.

Lemma greedy_pairs pool rsvs es :
  greedy pool rsvs es ->
  Forall (fun e => forall r, rsv e = Some r -> compatible r (conf e) = true) es /\
  sublist (omap rsv es) rsvs.
Proof.
  induction 1 as [pool | pool r rsvs es _ _ [IHc IHs]
                  | pre c post r rsvs es _ Hc _ [IHc IHs]].
  - split.
    + apply Forall_forall. intros e He.
      apply list_elem_of_In, in_map_iff in He as (c & <- & _). discriminate.
    + induction pool as [| c pool IH]; simpl; [constructor | exact IH].
  - split; [exact IHc |]. apply sublist_cons. exact IHs.
  - split.
    + constructor; [| exact IHc]. simpl. intros r' [= <-]. exact Hc.
    + simpl. apply sublist_skip. exact IHs.
Qed.

(** In the entries [matchRsvsWithConfiguration] returns, every
    reservation is compatible with the configuration it is paired with,
    and the reservations paired, read in the order of the entries, are a
    subsequence of the input reservations: none is paired twice and their
    order is kept. *)
Theorem matchRsvsWithConfiguration_pairs rsvs confs :
  exists entries,
    matchRsvsWithConfiguration rsvs confs = Value entries /\
    Forall (fun e => forall r, rsv e = Some r -> compatible r (conf e) = true) entries /\
    sublist (omap rsv entries) rsvs.
Proof.
  unfold matchRsvsWithConfiguration.
  destruct (matchLoop_greedy rsvs confs []) as (entries & pool' & Hrun & Hg).
  rewrite Hrun. simpl. eexists. split; [reflexivity |].
  apply greedy_pairs in Hg. exact Hg.
Qed.

(** Without reservations every configuration yields an entry without
    reservation, in the order of the configurations; without
    configurations there is no entry. *)
Theorem matchRsvsWithConfiguration_empty rsvs confs :
  matchRsvsWithConfiguration [] confs = Value (map (fun c => mkEntry c None) confs) /\
  matchRsvsWithConfiguration rsvs [] = Value [].
Proof.
  split; [reflexivity |].
  unfold matchRsvsWithConfiguration.
  assert (Hloop : forall acc, matchLoop rsvs [] acc = Value (acc, [])).
  { induction rsvs as [| r rsvs IH]; intros acc; simpl; [reflexivity | apply IH]. }
  rewrite Hloop. reflexivity.
Qed.

End MatchingFacts.

Section ParsingFacts.
Context `{PathLib} `{!SequenceParser}.

(** [parseInitial] on a nil configuration gives no configuration and no
    error. Otherwise it succeeds exactly when every entry has a predicate
    that parses and a minimum bandwidth not above the maximum; the
    configurations then follow the entries one by one, with the fields of
    the entry and the parsed predicate, so that every configuration has
    its minimum bandwidth at most its maximum. *)
Theorem parseInitial_checks_every_entry rsvs :
  parseInitial None = inl [] /\
  ((exists confs, parseInitial (Some (mkReservations rsvs)) = inl confs) <->
     Forall (fun r => (exists seq, NewSequence (PathPredicate r) = inl seq) /\
                      MinSize r <= MaxSize r) rsvs) /\
  (forall confs,
      parseInitial (Some (mkReservations rsvs)) = inl confs ->
      Forall2 (fun r c =>
                 NewSequence (PathPredicate r) = inl (predicate c) /\
                 dst c = DstAS r /\ pathType c = re_PathType r /\
                 minBW c = MinSize r /\ maxBW c = MaxSize r /\
                 splitCls c = re_SplitCls r /\ endProps c = EndProps r /\
                 minBW c <= maxBW c) rsvs confs).
Proof.
  split; [reflexivity |]. simpl. split.
  - induction rsvs as [| r rsvs IH]; simpl.
    + split; [constructor | eauto].
    + destruct (NewSequence (PathPredicate r)) as [seq | err] eqn:Hseq.
      * destruct (Z.gtb_spec (MinSize r) (MaxSize r)) as [Hgt | Hle].
        -- split; [intros [confs Hc]; discriminate |].
           intros Hall. inversion Hall as [| ? ? [_ Hok] _]; subst. lia.
        -- destruct (parseEntries rsvs) as [initial | err].
           ++ split; [| eauto]. intros _. constructor; [eauto |]. apply IH. eauto.
           ++ split; [intros [confs Hc]; discriminate |].
              intros Hall. inversion Hall as [| ? ? _ Hrest]; subst.
              apply IH in Hrest as [confs Hc]. discriminate.
      * split; [intros [confs Hc]; discriminate |].
        intros Hall. inversion Hall as [| ? ? [[seq Hs] _] _]; subst. congruence.
  - induction rsvs as [| r rsvs IH]; intros confs; simpl.
    + intros [= <-]. constructor.
    + destruct (NewSequence (PathPredicate r)) as [seq | err] eqn:Hseq; [| discriminate].
      destruct (Z.gtb_spec (MinSize r) (MaxSize r)) as [Hgt | Hle]; [discriminate |].
      destruct (parseEntries rsvs) as [initial | err]; [| discriminate].
      intros [= <-]. constructor; [| apply IH; reflexivity].
      simpl. repeat split; auto.
Qed.

End ParsingFacts.

Section KeeperTaskFacts.
Context `{Base} `{PathLib} {M : Type} `{!Manager M}.

(** When the router fails, or when the predicate keeps none of its paths,
    [askNewReservation] issues no setup request and returns no
    reservation: the router's error in the first case, an error of kind
    NoPathError in the second. *)
Theorem askNewReservation_without_candidates e w now m1 paths rerr m2 :
  Now (manager w) = (now, m1) ->
  PathsTo (dst (conf e)) m1 = ((paths, rerr), m2) ->
  (forall err, rerr = Some err ->
     askNewReservation e w = Value ((None, Some err), mkWorld m2 (issued w))) /\
  (rerr = None -> Eval (predicate (conf e)) paths = [] ->
     exists err,
       askNewReservation e w = Value ((None, Some err), mkWorld m2 (issued w)) /\
       kind err = NoPathError).
Proof.
  intros Hnow Hpaths. unfold askNewReservation, callNow, callPathsTo.
  rewrite Hnow. simpl. rewrite Hpaths. split.
  - intros err ->. reflexivity.
  - intros -> ->. exists ErrNoMorePaths. split; reflexivity.
Qed.

(** [askNewIndices] panics exactly when the entry has no reservation.
    Otherwise it issues one setup request and returns the manager's
    answer as it is: the request points to the reservation of the entry,
    asks for the index number [NextIndexToRenew] gives, expires
    [newIndexMinDuration] after the clock reading, keeps the steps and
    the transport path of the reservation, and starts at step 0. *)
Theorem askNewIndices_request e w :
  (rsv e = None <-> askNewIndices e w = Panic) /\
  (forall r now m1,
      rsv e = Some r ->
      Now (manager w) = (now, m1) ->
      exists req,
        PrepareRenewalRequest e now (now + newIndexMinDuration) = Value req /\
        askNewIndices e w =
          Value (fst (fst (SetupRequest req m1)),
                 mkWorld (snd (SetupRequest req m1)) (issued w ++ [req])) /\
        sr_Reservation req = Some r /\
        req_Index (sr_Request req) = NextIndexToRenew r /\
        sr_ExpirationTime req = now + newIndexMinDuration /\
        sr_Steps req = Steps r /\
        sr_TransportPath req = TransportPath_ r /\
        sr_CurrentStep req = 0).
Proof.
  unfold askNewIndices, callNow, PrepareRenewalRequest, callSetupRequest, Time_Add.
  split.
  - destruct (Now (manager w)) as [now m1]. destruct (rsv e) as [r |]; simpl.
    + split; [discriminate |].
      destruct (SetupRequest _ m1) as [[err res] m2]. discriminate.
    + split; reflexivity.
  - intros r now m1 -> ->. simpl. eexists. split; [reflexivity |].
    split; [| repeat split].
    destruct (SetupRequest _ m1) as [[err res] m2]. reflexivity.
Qed.

(** When the local activation is refused, [activateIndex] returns its
    error without asking the manager to activate anything: the
    reservation is unchanged and the manager is in the state the clock
    reading left. *)
Theorem activateIndex_refused_locally r w now m1 next err r1 :
  Now (manager w) = (now, m1) ->
  NextIndexToActivate r = Some next ->
  SetIndexActive (Idx next) r = Value (Some err, r1) ->
  activateIndex r w = Value ((Some err, r), mkWorld m1 (issued w)).
Proof.
  intros Hnow Hnext Hact.
  assert (r1 = r) as ->
    by (destruct (mutator_error_cases r r1 err) as (_ & _ & Hs & _); eapply Hs; eassumption).
  unfold activateIndex, callNow. rewrite Hnow, Hnext. simpl. rewrite Hact. reflexivity.
Qed.

Lemma activateIndex_accepted r w now m1 next r1 m2 :
  Now (manager w) = (now, m1) ->
  NextIndexToActivate r = Some next ->
  SetIndexActive (Idx next) r = Value (None, r1) ->
  ActivateRequest (NewRequest now (ID r) (Idx next) (Z.of_nat (length (Steps r))))
    (Steps r) (TransportPath_ r) (PathType_eqb (PathType_ r) DownPath) m1 = (None, m2) ->
  activateIndex r w = Value ((None, r1), mkWorld m2 (issued w)).
Proof.
  intros Hnow Hnext Hact Hrpc.
  destruct (mutator_frame r r1) as (_ & _ & Hframe & _).
  specialize (Hframe _ _ Hact).
  unfold activateIndex, callNow. rewrite Hnow, Hnext. simpl. rewrite Hact. simpl.
  unfold callActivateRequest. simpl.
  replace (Steps r1) with (Steps r) by (rewrite Hframe; reflexivity).
  replace (TransportPath_ r1) with (TransportPath_ r) by (rewrite Hframe; reflexivity).
  replace (PathType_ r1) with (PathType_ r) by (rewrite Hframe; reflexivity).
  rewrite Hrpc. reflexivity.
Qed.

End KeeperTaskFacts.

Section ComplianceFacts.
Context `{PathLib}.

Lemma Filter_In fs (l : Indices) ix :
  In ix (Filter fs l) <-> In ix l /\ Forall (fun f : IndexFilter => f ix = true) fs.
Proof.
  unfold Filter. rewrite filter_In, forallb_forall, Forall_forall.
  split; intros [Hin Hall]; (split; [exact Hin |]); intros f Hf; apply Hall;
    apply list_elem_of_In; exact Hf.
Qed.

(** An entry is never classified compliant without an active index:
    [Compliant] means that the reservation has an active index and an
    index of the same number that is confirmed (not temporary), inside
    the bandwidth range of the configuration, and expiring after
    [until]. *)
Theorem compliance_needs_active_index e until :
  compliance e until = Value Compliant ->
  exists r active ix,
    rsv e = Some r /\
    ActiveIndex r = Value (Some active) /\
    In ix (Indices_ r) /\
    Idx ix = Idx active /\
    State ix <> IndexTemporary /\
    minBW (conf e) <= MinBW ix /\ MaxBW ix <= maxBW (conf e) /\
    until < Expiration ix.
Proof.
  unfold compliance. destruct (rsv e) as [r |]; [| discriminate].
  destruct (length (Filter _ (Indices_ r)) =? 0)%nat; [discriminate |].
  destruct (ActiveIndex r) as [[active |] |] eqn:Hactive; simpl; try discriminate.
  - destruct (length (Filter [NotSwitchableFrom (Some active)] _) =? 0)%nat eqn:Hkeep;
      [discriminate |]. intros _.
    apply filter_nonempty in Hkeep as (ix & Hin & Hpass).
    apply Filter_In in Hin as [Hin Hfour].
    inversion Hfour as [| ? ? Hmin H1]; subst. inversion H1 as [| ? ? Hmax H2]; subst.
    inversion H2 as [| ? ? Hconf H3]; subst. inversion H3 as [| ? ? Hexp _]; subst.
    simpl in Hpass. rewrite andb_true_r in Hpass.
    unfold ByMinBW, ByMaxBW, NotConfirmed, ByExpiration, Time_After in *.
    exists r, active, ix. split; [reflexivity |]. split; [exact Hactive |].
    apply negb_true_iff, IndexState_eqb_neq in Hconf.
    split; [exact Hin |]. split; [apply Z.eqb_eq; exact Hpass |].
    split; [exact Hconf |].
    apply Z.geb_le in Hmin. apply Z.leb_le in Hmax. apply Z.gtb_lt in Hexp. lia.
  - destruct (length (Filter [NotSwitchableFrom None] _) =? 0)%nat eqn:Hkeep;
      [discriminate |].
    apply filter_nonempty in Hkeep as (ix & _ & Hpass). discriminate.
Qed.

End ComplianceFacts.

Section ComplianceReachable.
Context `{Base} `{PathLib}.

(** [compliance] panics on an entry without reservation; on an entry
    whose reservation was built by the mutators it always returns a
    classification, and this is [NeedsIndices] when the reservation has
    no index. *)
Theorem compliance_returns_on_reachable e until :
  (rsv e = None -> compliance e until = Panic) /\
  (forall r, rsv e = Some r -> reachable r ->
     (exists c, compliance e until = Value c) /\
     (Indices_ r = [] -> compliance e until = Value NeedsIndices)).
Proof.
  unfold compliance. split; [intros ->; reflexivity |].
  intros r -> Hreach. split.
  - destruct (length (Filter _ (Indices_ r)) =? 0)%nat; [eauto |].
    destruct (ActiveIndex_cases r Hreach) as [-> | (ix & -> & _)]; simpl;
      destruct (length (Filter _ _) =? 0)%nat; eauto.
  - intros ->. reflexivity.
Qed.

End ComplianceReachable.

Lemma NextIndexToActivate_no_active r :
  activeIndex r < 0 -> NextIndexToActivate r = last (Indices_ r).
Proof.
  intros Hneg. unfold NextIndexToActivate.
  destruct (Indices_ r) as [| ix l] eqn:Hl using rev_ind; [reflexivity |].
  rewrite length_app. simpl.
  destruct (Z.eqb_spec (Z.of_nat (length l + 1)) 0); [lia |].
  destruct (Z.ltb_spec (activeIndex r) 0); [| lia].
  rewrite last_snoc.
  replace (Z.to_nat (Z.of_nat (length l + 1) - 1)) with (length l) by lia.
  rewrite lookup_app_r by lia. rewrite Nat.sub_diag. reflexivity.
Qed.

Section ActivationCompliance.
Context `{Base} `{PathLib} {M : Type} `{!Manager M}.

(** Activation brings compliance when the index it picks is a compliant
    one: if the reservation has no active index, its last
    index is confirmed, inside the bandwidth range of the configuration
    and expiring after [until], the lookup resolves its number to the last
    position and the manager accepts the activation request, then
    [activateIndex] succeeds, leaves that index alone in the list, active,
    and the entry is classified [Compliant]. *)
Theorem activateIndex_makes_compliant (c : configuration) r w until ix now m1 m2 :
  activeIndex r < 0 ->
  last (Indices_ r) = Some ix ->
  State ix = IndexPending \/ State ix = IndexActive ->
  minBW c <= MinBW ix -> MaxBW ix <= maxBW c -> until < Expiration ix ->
  FindIndex (Indices_ r) (Idx ix) = inl (length (Indices_ r) - 1)%nat ->
  Now (manager w) = (now, m1) ->
  ActivateRequest (NewRequest now (ID r) (Idx ix) (Z.of_nat (length (Steps r))))
    (Steps r) (TransportPath_ r) (PathType_eqb (PathType_ r) DownPath) m1 = (None, m2) ->
  exists r',
    activateIndex r w = Value ((None, r'), mkWorld m2 (issued w)) /\
    Indices_ r' = [setState IndexActive ix] /\
    activeIndex r' = 0 /\
    compliance (mkEntry c (Some r')) until = Value Compliant.
Proof.
  intros Hnone Hlast Hst Hmin Hmax Hexp Hfind Hnow Hrpc.
  assert (Hp : Indices_ r !! (length (Indices_ r) - 1)%nat = Some ix).
  { rewrite last_lookup in Hlast. rewrite <- Hlast. f_equal. lia. }
  assert (Hdrop : drop (length (Indices_ r) - 1) (Indices_ r) = [ix]).
  { destruct (Indices_ r) as [| y l] eqn:Hl using rev_ind; [discriminate |].
    rewrite last_snoc in Hlast. injection Hlast as ->.
    rewrite length_app. simpl.
    replace (length l + 1 - 1)%nat with (length l) by lia.
    apply drop_app_length. }
  pose proof (SetIndexActive_behind r (Idx ix) _ ix Hfind Hp Hst) as Hact.
  rewrite Hdrop in Hact. simpl in Hact.
  eexists. split.
  - eapply activateIndex_accepted; [exact Hnow | | apply Hact; lia | exact Hrpc].
    rewrite NextIndexToActivate_no_active by exact Hnone. exact Hlast.
  - split; [reflexivity |]. split; [reflexivity |].
    unfold compliance, Filter, ActiveIndex. simpl.
    unfold ByMinBW, ByMaxBW, NotConfirmed, ByExpiration, Time_After. simpl.
    replace (MinBW ix >=? minBW c) with true by (symmetry; apply Z.geb_le; lia).
    replace (MaxBW ix <=? maxBW c) with true by (symmetry; apply Z.leb_le; lia).
    replace (Expiration ix >? until) with true by (symmetry; apply Z.gtb_lt; lia).
    simpl. rewrite Z.eqb_refl. reflexivity.
Qed.

End ActivationCompliance.

Section KeepReservation.
Context `{Base} `{PathLib} {M : Type} `{!Manager M} `{!@RenewalEffect M}.

Lemma keepReservation_times e w t err e' w' :
  keepReservation e w = Value ((t, err), e', w') ->
  (err = None -> t = fst (Now (manager w)) + newIndexMinDuration) /\
  (err <> None -> t = zeroTime).
Proof.
  unfold keepReservation, callNow, Time_Add.
  destruct (Now (manager w)) as [now m1]. simpl. intros Hrun.
  unfold mbind, outcome_bind in Hrun.
  repeat match type of Hrun with
         | context [match ?x with _ => _ end] =>
             destruct x eqn:?; simpl in Hrun; try discriminate
         end;
    simplify_eq; (split; [intros; try reflexivity; congruence
                         | intros; try reflexivity; congruence]).
Qed.

(** Whatever [keepReservation] does, the time it returns is fixed by
    whether it returns an error: [newIndexMinDuration] after its first
    reading of the clock when there is none, the zero time otherwise. *)
Theorem keepReservation_wakeup e w t err e' w' :
  keepReservation e w = Value ((t, err), e', w') ->
  (err = None -> t = fst (Now (manager w)) + newIndexMinDuration) /\
  (err <> None -> t = zeroTime).
Proof. exact (keepReservation_times e w t err e' w'). Qed.

(** An entry whose reservation is classified compliant costs two
    readings of the clock and nothing else: no setup request is issued,
    the entry is unchanged and no error is returned. *)
Theorem keepReservation_compliant_is_idle e w r now m1 now' m2 :
  rsv e = Some r ->
  Now (manager w) = (now, m1) ->
  Now m1 = (now', m2) ->
  compliance e (now' + minDuration) = Value Compliant ->
  keepReservation e w =
    Value ((now + newIndexMinDuration, None), e, mkWorld m2 (issued w)).
Proof.
  intros Hrsv Hnow Hnow' Hc. unfold keepReservation, callNow, Time_Add.
  rewrite Hnow, Hrsv. simpl. rewrite Hnow'. rewrite Hc. reflexivity.
Qed.

(** An entry without reservation keeps the reservation that
    [askNewReservation] hands back even when this comes with an error:
    the error is returned at once with the zero time, nothing else is
    asked of the manager, and the entry holds the reservation. Without
    reservation handed back the entry stays without one. *)
Theorem keepReservation_new_reservation_with_error e w now m1 r err w2 :
  rsv e = None ->
  Now (manager w) = (now, m1) ->
  askNewReservation e (mkWorld m1 (issued w)) = Value ((r, Some err), w2) ->
  keepReservation e w = Value ((zeroTime, Some err), mkEntry (conf e) r, w2).
Proof.
  intros Hrsv Hnow Hask. unfold keepReservation, callNow.
  rewrite Hnow, Hrsv. simpl. rewrite Hask. reflexivity.
Qed.

(** A keeper whose tasks all succeed sleeps as long as it may: with the
    clock reading [now] throughout, if every slot holds the time of a
    [keepReservation] that returned no error, [OneShot] returns
    [now + sleepAtMost] and no error. *)
Theorem OneShot_after_successful_tasks (tasks : list (entry * world)) times w now :
  (forall m, fst (Now m) = now) ->
  Forall2 (fun task t =>
             exists e' w', keepReservation (fst task) (snd task) = Value ((t, None), e', w'))
          tasks times ->
  fst (OneShot times (map (fun _ => None) tasks) w) = (now + sleepAtMost, None).
Proof.
  intros Hclock Htasks.
  assert (Htimes : Forall (fun t => t = now + newIndexMinDuration) times).
  { induction Htasks as [| task t tasks times (e' & w' & Hrun) _ IH]; [constructor |].
    constructor; [| exact IH].
    apply keepReservation_times in Hrun as [Hok _].
    rewrite (Hok eq_refl), Hclock. reflexivity. }
  assert (Hcall : forall w0, exists w1, callNow w0 = (now, w1)).
  { intros w0. unfold callNow. specialize (Hclock (manager w0)).
    destruct (Now (manager w0)) as [t m]. simpl in Hclock. subst t. eauto. }
  assert (Hnone : Coalesce (map (fun _ => None) tasks) = None).
  { apply Coalesce_None. apply Forall_forall. intros x Hx.
    apply list_elem_of_In, in_map_iff in Hx as (task & <- & _). reflexivity. }
  unfold OneShot. rewrite Hnone.
  destruct (Hcall w) as (w1 & ->). destruct (Hcall w1) as (w2 & ->).
  destruct (Hcall w2) as (w3 & ->).
  rewrite fold_left_earlier. unfold Time_Add.
  rewrite Time_Sub_below by (vm_compute; split; [reflexivity | discriminate]).
  assert (Hmin : fold_right Z.min (now + sleepAtMost) times = now + sleepAtMost).
  { clear - Htimes. induction Htimes as [| t times -> _ IH]; simpl; [reflexivity |].
    rewrite IH. assert (sleepAtMost <= newIndexMinDuration) by (vm_compute; discriminate).
    lia. }
  rewrite Hmin.
  assert (Hle : sleepAtLeast <= sleepAtMost) by (vm_compute; discriminate).
  destruct (Z.ltb_spec (now + sleepAtMost - now) sleepAtLeast); [lia | reflexivity].
Qed.

End KeepReservation.

Section NewKeeperFacts.
Context `{PathLib} {M : Type} `{!Manager M} `{!SequenceParser} `{!@Storage M}.

(** [NewKeeper] never panics. When the configuration does not parse it
    fails with that error before the manager is asked anything. When it
    succeeds, the keeper holds exactly one entry per configured
    reservation, each parsed configuration in exactly one entry, and its
    [sleepUntil] lies before the clock reading. *)
Theorem NewKeeper_one_entry_per_configuration wall m cfg :
  exists res m',
    NewKeeper wall m cfg = Value (res, m') /\
    (forall perr, parseInitial cfg = inr perr ->
       res = inr (ErrConfiguration perr) /\ m' = m) /\
    (forall k, res = inl k ->
       exists confs,
         parseInitial cfg = inl confs /\
         length (entries k) = length confs /\
         map conf (entries k) ≡ₚ confs /\
         sleepUntil k < wall).
Proof.
  unfold NewKeeper.
  destruct (parseInitial cfg) as [confs | perr].
  2: { eexists _, _. split; [reflexivity |]. split.
       - intros perr' [= <-]. split; reflexivity.
       - intros k Hk. discriminate. }
  destruct (DeleteExpiredIndices m) as [[err |] m1].
  { eexists _, _. split; [reflexivity |]. split; [discriminate | discriminate]. }
  destruct (GetReservationsAtSource m1) as [[rsvs [err |]] m2].
  { eexists _, _. split; [reflexivity |]. split; [discriminate | discriminate]. }
  unfold matchRsvsWithConfiguration.
  destruct (matchLoop_greedy rsvs confs []) as (es & pool' & Hrun & Hg).
  rewrite Hrun. simpl. eexists _, _. split; [reflexivity |].
  split; [discriminate |]. intros k [= <-]. exists confs. simpl.
  pose proof (greedy_permutation _ _ _ Hg) as Hperm.
  split; [reflexivity |]. split; [| split; [exact Hperm | unfold Time_Add; lia]].
  rewrite <- (length_map conf). apply Permutation_length. exact Hperm.
Qed.

End NewKeeperFacts.

(** * Properties of the manager's periodic task *)

Section ManagerTask.
Import manager_task.

Lemma findEarliest_fold (ts : list Time) : forall first,
  fold_left (fun earliest t => if Time_Before t earliest then t else earliest) ts first
  = fold_right Z.min first ts.
Proof. exact (fold_left_earlier ts). Qed.

Lemma fold_right_min_member (ts : list Time) (first : Time) :
  In (fold_right Z.min first ts) (first :: ts) /\
  Forall (fun t => fold_right Z.min first ts <= t) (first :: ts).
Proof.
  induction ts as [| t ts [IHin IHle]]; simpl.
  - split; [left; reflexivity | constructor; [lia | constructor]].
  - inversion IHle as [| ? ? Hfirst Hrest]; subst. split.
    + destruct (Z.min_spec t (fold_right Z.min first ts)) as [[_ ->] | [_ ->]].
      * right. left. reflexivity.
      * destruct IHin as [<- | Hin]; [left; reflexivity | right; right; exact Hin].
    + constructor; [lia |]. constructor; [lia |].
      eapply Forall_impl; [exact Hrest |]. simpl. intros x Hx. lia.
Qed.


Lemma findEarliest_min_helper times :
  (times = [] -> findEarliest times = zeroTime) /\
  (times <> [] ->
     In (findEarliest times) times /\
     Forall (fun t => findEarliest times <= t) times).
Proof.
  split; [intros ->; reflexivity |].
  destruct times as [| first ts]; [contradiction |]. intros _.
  unfold findEarliest. rewrite findEarliest_fold.
  apply fold_right_min_member.
Qed.

(** [findEarliest] returns the zero time when given no time; otherwise it
    returns one of the times given, and none of them is earlier. *)
Theorem findEarliest_is_minimum times :
  (times = [] -> findEarliest times = zeroTime) /\
  (times <> [] ->
     In (findEarliest times) times /\
     Forall (fun t => findEarliest times <= t) times).
Proof. exact (findEarliest_min_helper times). Qed.

(** A call of [Run] before the wake-up time changes nothing. When the
    store is not ready, only the wake-up time changes, to two seconds
    after the manager's clock. *)
Theorem Run_not_due_or_not_ready m x :
  (wallStart x < wakeupTime m -> Run m x = m) /\
  (wakeupTime m <= wallStart x ->
   storeReady x = false ->
   Run m x =
     mkManager (clockNotReady x + 2 * Second)
       (wakeupListSegs m) (wakeupListE2Es m)
       (wakeupKeeper m) (wakeupExpirer m)
       (wakeupAdmissionList m)).
Proof.
  unfold Run, Time_Before. split.
  - intros Hlt. destruct (Z.ltb_spec (wallStart x) (wakeupTime m));
      [reflexivity | lia].
  - intros Hle ->. destruct (Z.ltb_spec (wallStart x) (wakeupTime m));
      [lia | reflexivity].
Qed.

(** After a call of [Run] that is due, with the store ready, the wake-up
    time is the earliest of the five deadlines of the sub-tasks: it is
    one of them and none is earlier. The two reports are re-armed 10 and
    5 minutes after they end. A sub-task that is not yet due keeps its
    deadline; a sweep that is due takes the deadline the store gives, or
    8 seconds from the start of the call when the store gives the zero
    time. *)
Theorem Run_rearms_deadlines m x :
  wakeupTime m <= wallStart x ->
  storeReady x = true ->
  let m' := Run m x in
  let deadlines :=
    [wakeupListSegs m'; wakeupListE2Es m';
     wakeupKeeper m'; wakeupExpirer m';
     wakeupAdmissionList m'] in
  In (wakeupTime m') deadlines /\
  Forall (fun t => wakeupTime m' <= t) deadlines /\
  wakeupListSegs m' = wallSegs x + 10 * Minute /\
  wakeupListE2Es m' = wallE2Es x + 5 * Minute /\
  wakeupKeeper m' =
    (if wallStart x <? wakeupKeeper m
     then wakeupKeeper m else keeperWakeup x) /\
  (wallStart x < wakeupExpirer m ->
     wakeupExpirer m' = wakeupExpirer m) /\
  (wakeupExpirer m <= wallStart x ->
     wakeupExpirer m' =
       (if expirerWakeup x =? zeroTime
        then wallStart x + 8 * Second else expirerWakeup x)) /\
  (wallStart x < wakeupAdmissionList m ->
     wakeupAdmissionList m' = wakeupAdmissionList m) /\
  (wakeupAdmissionList m <= wallStart x ->
     wakeupAdmissionList m' =
       (if admissionWakeup x =? zeroTime
        then wallStart x + 8 * Second else admissionWakeup x)).
Proof.
  intros Hdue Hready. unfold Run, Time_Before.
  destruct (Z.ltb_spec (wallStart x) (wakeupTime m)); [lia |].
  rewrite Hready. simpl negb. cbv iota. cbv zeta.
  set (ds := [_; _; _; _; _]).
  assert (Hmin := proj2 (findEarliest_min_helper ds) ltac:(discriminate)).
  simpl wakeupTime. simpl wakeupListSegs.
  simpl wakeupListE2Es. simpl wakeupKeeper.
  simpl wakeupExpirer. simpl wakeupAdmissionList.
  destruct Hmin as [Hin Hle].
  split; [exact Hin |]. split; [exact Hle |].
  unfold sweepDeadline, Time_IsZero, Time_Before, Time_Add.
  repeat split; try reflexivity.
  - intros Hlt. destruct (Z.ltb_spec (wallStart x) (wakeupExpirer m));
      [reflexivity | lia].
  - intros Hle'. destruct (Z.ltb_spec (wallStart x) (wakeupExpirer m));
      [lia | reflexivity].
  - intros Hlt.
    destruct (Z.ltb_spec (wallStart x) (wakeupAdmissionList m));
      [reflexivity | lia].
  - intros Hle'.
    destruct (Z.ltb_spec (wallStart x) (wakeupAdmissionList m));
      [lia | reflexivity].
Qed.

End ManagerTask.

(** * The further properties on concrete inputs *)

Lemma mutator_error_leaves_unchanged_witness :
  SetIndexActive 0 pendingThenActive = Value (Some ErrPastIndex, pendingThenActive) /\
  pendingThenActive = pendingThenActive.
Proof.
  split; [reflexivity |].
  apply (proj1 (proj2 (proj2
           (mutator_error_leaves_unchanged pendingThenActive pendingThenActive ErrPastIndex)))
           0).
  reflexivity.
Defined.

Lemma mutators_keep_a_suffix_witness :
  RemoveIndex 0 pendingThenActive
    = Value (None, sampleReservation [sampleIndex 1 IndexActive] 0) /\
  exists n,
    map (setState IndexTemporary) [sampleIndex 1 IndexActive]
    = drop n (map (setState IndexTemporary) (Indices_ pendingThenActive)).
Proof.
  split; [reflexivity |].
  apply (proj2 (proj2 (proj2
           (mutators_keep_a_suffix pendingThenActive
              (sampleReservation [sampleIndex 1 IndexActive] 0)))) 0 None).
  reflexivity.
Defined.

Lemma RemoveIndex_effect_witness :
  RemoveIndex 0 pendingThenActive
    = Value (None, sampleReservation [sampleIndex 1 IndexActive] 0) /\
  exists p,
    FindIndex (Indices_ pendingThenActive) 0 = inl p /\
    (p < 2)%nat /\
    [sampleIndex 1 IndexActive] = drop (S p) (Indices_ pendingThenActive) /\
    (Z.of_nat p < 1 ->
       0 = 1 - (Z.of_nat p + 1) /\
       [sampleIndex 1 IndexActive] !! Z.to_nat 0
         = Indices_ pendingThenActive !! Z.to_nat 1) /\
    (1 <= Z.of_nat p -> 0 = -1).
Proof.
  split; [reflexivity |].
  apply (RemoveIndex_effect 0 pendingThenActive
           (sampleReservation [sampleIndex 1 IndexActive] 0)).
  reflexivity.
Defined.

Lemma RemoveIndex_reachable_deactivates_witness :
  reachable activeThenTemporary /\
  exists r',
    RemoveIndex 0 activeThenTemporary = Value (None, r') /\
    activeIndex r' = -1 /\ Forall (fun ix => State ix <> IndexActive) (Indices_ r').
Proof.
  split; [exact reachable_activeThenTemporary |].
  eexists. split; [reflexivity |].
  apply (RemoveIndex_reachable_deactivates 0 activeThenTemporary);
    [exact reachable_activeThenTemporary | reflexivity].
Defined.

Lemma ActiveIndex_reachable_witness :
  reachable activeThenTemporary /\
  ((ActiveIndex activeThenTemporary = Value None /\
      Forall (fun ix => State ix <> IndexActive) (Indices_ activeThenTemporary)) \/
   (exists ix, ActiveIndex activeThenTemporary = Value (Some ix) /\
      Indices_ activeThenTemporary !! 0%nat = Some ix /\ State ix = IndexActive)).
Proof.
  split; [exact reachable_activeThenTemporary |].
  apply (ActiveIndex_reachable activeThenTemporary). exact reachable_activeThenTemporary.
Defined.

Lemma SetIndexActive_twice_witness :
  exists r',
    SetIndexActive 1 activeThenPending = Value (None, r') /\
    r' <> activeThenPending /\
    SetIndexActive 1 r' = Value (None, r').
Proof.
  eexists. split; [reflexivity |]. split; [discriminate |].
  apply (SetIndexActive_twice 1 activeThenPending). reflexivity.
Defined.

Lemma activate_then_inactivate_at_front_witness :
  exists r1,
    SetIndexActive 0 twoPending = Value (None, r1) /\
    activeIndex r1 = 0 /\
    SetIndexInactive r1 = Value (tt, twoPending).
Proof.
  apply (activate_then_inactivate_at_front 0 twoPending (sampleIndex 0 IndexPending));
    reflexivity.
Defined.

Lemma Validate_accepts_only_valid_witness :
  Validate (Some validRsv) = Value None /\
  atMostOneActive (Indices_ validRsv) /\ (2 <= length (Steps validRsv))%nat.
Proof.
  split; [reflexivity |].
  destruct (Validate_accepts_only_valid validRsv) as (_ & _ & _ & _ & Hone & Hsteps & _);
    [reflexivity |].
  split; assumption.
Defined.

Lemma Validate_reachable_active_checks_witness :
  reachable activeThenTemporary /\
  Validate (Some activeThenTemporary) = Value (Some ErrWrongSteps) /\
  (forall a, ErrWrongSteps <> ErrInvalidActiveIndex a) /\
  (forall first another, ErrWrongSteps <> ErrMoreThanOneActive first another).
Proof.
  split; [exact reachable_activeThenTemporary |]. split; [reflexivity |].
  apply (Validate_reachable_active_checks activeThenTemporary ErrWrongSteps);
    [exact reachable_activeThenTemporary | reflexivity].
Defined.

Lemma MaxBlockedBW_is_maximum_witness :
  (forall a b, a <= b -> ToKbps a <= ToKbps b) /\
  MaxBlockedBW threeAllocations = 16 * 7 /\
  (forall ix, In ix (Indices_ threeAllocations) ->
     ToKbps (AllocBW ix) <= MaxBlockedBW threeAllocations).
Proof.
  assert (Hmono : forall a b, a <= b -> ToKbps a <= ToKbps b)
    by (intros a b Hab; simpl; lia).
  split; [exact Hmono |]. split; [reflexivity |].
  apply (MaxBlockedBW_is_maximum threeAllocations Hmono).
Defined.

Lemma MaxBlockedBW_le_MaxRequestedBW_witness :
  MaxBlockedBW threeAllocations = 16 * 7 /\
  MaxRequestedBW threeAllocations = 16 * 9 /\
  MaxBlockedBW threeAllocations <= MaxRequestedBW threeAllocations.
Proof.
  split; [reflexivity |]. split; [reflexivity |].
  apply (MaxBlockedBW_le_MaxRequestedBW threeAllocations).
  - intros a b Hab. simpl. lia.
  - repeat constructor; simpl; lia.
Defined.

Lemma mutators_touch_only_indices_witness :
  exists r',
    SetIndexActive 1 twoPending = Value (None, r') /\
    r' = withActiveIndex (activeIndex r') (withIndices (Indices_ r') twoPending).
Proof.
  eexists. split; [reflexivity |].
  eapply (proj1 (proj2 (proj2 (mutators_touch_only_indices twoPending _))) 1 None).
  reflexivity.
Defined.

Lemma deriveInfoField_reachable_witness :
  reachable activeThenTemporary /\
  exists info,
    deriveInfoField activeThenTemporary = Value (Some info) /\
    length (cif_ResIdSuffix info) = 12%nat.
Proof.
  split; [exact reachable_activeThenTemporary |].
  destruct (deriveInfoField_reachable activeThenTemporary reachable_activeThenTemporary)
    as [[Hnone _] | (ix & info & _ & _ & Hinfo & _ & _ & _ & Hlen & _)].
  - vm_compute in Hnone. discriminate.
  - exists info. split; assumption.
Defined.

Lemma DeriveColibriPath_hop_order_witness :
  DeriveColibriPath downRsv = Value (Some [Byte.x01; Byte.x02]) /\
  exists info,
    deriveInfoField downRsv = Value (Some info) /\
    DeriveColibriPath downRsv =
      Value
        (match ReversePath
                 (mkColibriPath (Some info) (rev (map toColibriHopField twoHops))) with
         | inl p => match ToMinimal p with inl min => Some min | inr _ => None end
         | inr _ => None
         end).
Proof.
  split; [reflexivity |].
  apply (proj2 (DeriveColibriPath_hop_order downRsv)
           (NewIndex 0 0 IndexActive 0 0 0
              (Some (mkToken (mkInfoField 0 0 0 0 DownPath) twoHops)))
           (mkToken (mkInfoField 0 0 0 0 DownPath) twoHops));
    reflexivity.
Defined.

Lemma parseInitial_checks_every_entry_witness :
  parseInitial (Some (mkReservations [goodEntry]))
    = inl [mkConfiguration 2 UpPath [1; 2] 10 42 2 49] /\
  Forall (fun r => (exists seq, NewSequence (PathPredicate r) = inl seq) /\
                   MinSize r <= MaxSize r) [goodEntry] /\
  ~ (exists confs, parseInitial (Some (mkReservations [goodEntry; badEntry])) = inl confs).
Proof.
  split; [reflexivity |]. split.
  - apply (proj1 (proj2 (parseInitial_checks_every_entry [goodEntry]))). eauto.
  - intros Hok.
    apply (proj1 (proj2 (parseInitial_checks_every_entry [goodEntry; badEntry]))) in Hok.
    inversion Hok as [| ? ? _ Hrest]; subst.
    inversion Hrest as [| ? ? [_ Hbad] _]; subst. vm_compute in Hbad. apply Hbad. reflexivity.
Defined.

Lemma askNewReservation_without_candidates_witness :
  Eval (predicate (conf freshEntry)) (routerPaths detourScript) = [] /\
  exists err,
    askNewReservation freshEntry (mkWorld detourScript [])
      = Value ((None, Some err), mkWorld detourScript []) /\
    kind err = NoPathError.
Proof.
  split; [reflexivity |].
  destruct (askNewReservation_without_candidates freshEntry (mkWorld detourScript [])
              5 detourScript [viaThree] None detourScript) as [_ Hempty];
    [reflexivity | reflexivity |].
  apply Hempty; reflexivity.
Defined.

Lemma activateIndex_refused_locally_witness :
  NextIndexToActivate activeThenTemporary = Indices_ activeThenTemporary !! 1%nat /\
  activateIndex activeThenTemporary (mkWorld quietScript [])
    = Value ((Some ErrNotConfirmed, activeThenTemporary), mkWorld quietScript []).
Proof.
  split; [reflexivity |].
  eapply (activateIndex_refused_locally activeThenTemporary (mkWorld quietScript [])
            5 quietScript _ ErrNotConfirmed activeThenTemporary);
    reflexivity.
Defined.

Lemma compliance_needs_active_index_witness :
  compliance compliantEntry 0 = Value Compliant /\
  exists r active ix,
    rsv compliantEntry = Some r /\
    ActiveIndex r = Value (Some active) /\
    In ix (Indices_ r) /\
    Idx ix = Idx active /\
    State ix <> IndexTemporary /\
    minBW (conf compliantEntry) <= MinBW ix /\ MaxBW ix <= maxBW (conf compliantEntry) /\
    0 < Expiration ix.
Proof.
  split; [reflexivity |].
  apply (compliance_needs_active_index compliantEntry 0). reflexivity.
Defined.

Lemma compliance_returns_on_reachable_witness :
  reachable activeThenTemporary /\
  exists c, compliance (mkEntry testConf (Some activeThenTemporary)) 0 = Value c.
Proof.
  split; [exact reachable_activeThenTemporary |].
  apply (proj2 (compliance_returns_on_reachable
                  (mkEntry testConf (Some activeThenTemporary)) 0)
           activeThenTemporary eq_refl reachable_activeThenTemporary).
Defined.

Lemma activateIndex_makes_compliant_witness :
  compliance (mkEntry testConf (Some pendingRsv)) 0 = Value NeedsActivation /\
  exists r',
    activateIndex pendingRsv (mkWorld quietScript [])
      = Value ((None, r'), mkWorld quietScript []) /\
    Indices_ r' = [setState IndexActive (testIndex 0 tomorrow IndexPending 12 24)] /\
    activeIndex r' = 0 /\
    compliance (mkEntry testConf (Some r')) 0 = Value Compliant.
Proof.
  split; [reflexivity |].
  apply (activateIndex_makes_compliant testConf pendingRsv (mkWorld quietScript []) 0
           (testIndex 0 tomorrow IndexPending 12 24) 5 quietScript quietScript);
    try reflexivity; [left; reflexivity | vm_compute; discriminate | vm_compute; discriminate].
Defined.

Lemma keepReservation_wakeup_witness :
  keepReservation compliantEntry (mkWorld quietScript [])
    = Value ((5 + newIndexMinDuration, None), compliantEntry, mkWorld quietScript []) /\
  (None = None (A := error) ->
     5 + newIndexMinDuration = fst (Now quietScript) + newIndexMinDuration).
Proof.
  split; [reflexivity |].
  apply (keepReservation_wakeup compliantEntry (mkWorld quietScript [])
           (5 + newIndexMinDuration) None compliantEntry (mkWorld quietScript [])).
  reflexivity.
Defined.

Lemma keepReservation_compliant_is_idle_witness :
  compliance compliantEntry (5 + minDuration) = Value Compliant /\
  keepReservation compliantEntry (mkWorld quietScript [])
    = Value ((5 + newIndexMinDuration, None), compliantEntry, mkWorld quietScript []).
Proof.
  split; [reflexivity |].
  apply (keepReservation_compliant_is_idle compliantEntry (mkWorld quietScript [])
           (testRsv [testIndex 0 tomorrow IndexActive 12 24] 0) 5 quietScript 5 quietScript);
    reflexivity.
Defined.

Lemma keepReservation_new_reservation_with_error_witness :
  exists w2,
    askNewReservation freshEntry (mkWorld setupScript [])
      = Value ((Some (testRsv [] (-1)), Some (ErrCollaborator 2)), w2) /\
    keepReservation freshEntry (mkWorld setupScript [])
      = Value ((zeroTime, Some (ErrCollaborator 2)),
               mkEntry testConf (Some (testRsv [] (-1))), w2).
Proof.
  eexists. split; [reflexivity |].
  apply (keepReservation_new_reservation_with_error freshEntry (mkWorld setupScript [])
           5 setupScript); reflexivity.
Defined.

Lemma OneShot_after_successful_tasks_witness :
  (forall m : unit, fst (Now m) = 10) /\
  keepReservation compliantEntry (mkWorld tt [])
    = Value ((10 + newIndexMinDuration, None), compliantEntry, mkWorld tt []) /\
  fst (OneShot [10 + newIndexMinDuration] [None] (mkWorld tt [])) = (10 + sleepAtMost, None).
Proof.
  split; [intros []; reflexivity |]. split; [reflexivity |].
  apply (OneShot_after_successful_tasks [(compliantEntry, mkWorld tt [])]
           [10 + newIndexMinDuration] (mkWorld tt []) 10).
  - intros []. reflexivity.
  - constructor; [| constructor]. eexists _, _. reflexivity.
Defined.

Lemma NewKeeper_one_entry_per_configuration_witness :
  exists k,
    NewKeeper 100 quietScript (Some (mkReservations [goodEntry])) = Value (inl k, quietScript) /\
    length (entries k) = 1%nat /\ sleepUntil k < 100.
Proof.
  destruct (NewKeeper_one_entry_per_configuration 100 quietScript
              (Some (mkReservations [goodEntry]))) as (res & m' & Hrun & _ & Hok).
  vm_compute in Hrun. injection Hrun as <- <-.
  destruct (Hok _ eq_refl) as (confs & Hparse & Hlen & _ & Hsleep).
  vm_compute in Hparse. injection Hparse as <-.
  eexists. split; [vm_compute; reflexivity |]. split; [exact Hlen | exact Hsleep].
Defined.

Section ManagerTaskWitnesses.
Import manager_task.

Lemma findEarliest_is_minimum_witness :
  findEarliest [30; 10; 20] = 10 /\
  In (findEarliest [30; 10; 20]) [30; 10; 20] /\
  Forall (fun t => findEarliest [30; 10; 20] <= t) [30; 10; 20].
Proof.
  split; [reflexivity |].
  apply (findEarliest_is_minimum [30; 10; 20]). discriminate.
Defined.

Lemma Run_rearms_deadlines_witness :
  wakeupTime dueManager <= wallStart sampleReadings /\
  wakeupKeeper (Run dueManager sampleReadings) = 100 + 4 * Second /\
  wakeupExpirer (Run dueManager sampleReadings) = 500 /\
  wakeupAdmissionList (Run dueManager sampleReadings) = 100 + 8 * Second /\
  wakeupTime (Run dueManager sampleReadings) = 500.
Proof.
  split; [vm_compute; discriminate |].
  destruct (Run_rearms_deadlines dueManager sampleReadings)
    as (_ & _ & _ & _ & Hkeeper & Hexp & _ & _ & Hadm);
    [vm_compute; discriminate | reflexivity |].
  split; [rewrite Hkeeper; reflexivity |].
  split; [apply Hexp; vm_compute; reflexivity |].
  split; [rewrite Hadm by (vm_compute; discriminate); reflexivity | reflexivity].
Defined.

End ManagerTaskWitnesses.
